(** * The RAG ingestion and similarity-search pipeline

    A shallow embedding of [src/lib/utils/vector-search.ts] (cosine
    similarity and the brute-force search over a user's documents) and of the
    upload route (chunk filtering, embedding post-processing, persistence),
    followed by the properties of the pipeline.

    JavaScript's [number] is IEEE 754 binary64, which is what Rocq's
    primitive [float] is: arithmetic, comparisons and NaN are those of the
    running program.  Strings are sequences of UTF-16 code units.  A call
    that may throw (or an awaited promise that may reject) returns a
    [Completion]. *)

From Stdlib Require Import Ascii String.
From Stdlib Require Import ZArith NArith Lia Bool List Sorted Permutation Floats.
Import ListNotations.

(* ================================================================= *)
(** * Part I: the program *)

(* ----------------------------------------------------------------- *)
(** ** Strings *)

Module JSString.

(** A string is its sequence of UTF-16 code units. *)
Definition t := list N.

(** A literal of the source (all of them are ASCII). *)
Definition lit (s : string) : t := map N_of_ascii (list_ascii_of_string s).

Fixpoint eqb (a b : t) : bool :=
  match a, b with
  | [], [] => true
  | x :: a', y :: b' => N.eqb x y && eqb a' b'
  | _, _ => false
  end.

(** ECMAScript's WhiteSpace and LineTerminator code points: what
    [String.prototype.trim] strips and what [\s] matches. *)
Definition isWhiteSpace (c : N) : bool :=
  ((9 <=? c) && (c <=? 13)          (* TAB, LF, VT, FF, CR *)
   || (c =? 32)                     (* SPACE *)
   || (c =? 160)                    (* NO-BREAK SPACE *)
   || (c =? 5760)                   (* U+1680 *)
   || (8192 <=? c) && (c <=? 8202)  (* U+2000 .. U+200A *)
   || (c =? 8232) || (c =? 8233)    (* LINE and PARAGRAPH SEPARATOR *)
   || (c =? 8239)                   (* U+202F *)
   || (c =? 8287)                   (* U+205F *)
   || (c =? 12288)                  (* U+3000 *)
   || (c =? 65279))%N.              (* U+FEFF *)

Fixpoint trimStart (s : t) : t :=
  match s with
  | c :: rest => if isWhiteSpace c then trimStart rest else s
  | [] => []
  end.

Definition trimEnd (s : t) : t := rev (trimStart (rev s)).

Definition trim (s : t) : t := trimEnd (trimStart s).

(** [s.replace(/\r\n/g, '\n')] *)
Fixpoint replaceCRLF (s : t) : t :=
  match s with
  | [] => []
  | c :: rest =>
      match rest with
      | d :: rest' =>
          if ((c =? 13) && (d =? 10))%N then 10%N :: replaceCRLF rest'
          else c :: replaceCRLF rest
      | [] => [c]
      end
  end.

(** [s.replace(/x/g, y)] for single code units [x] and [y]. *)
Definition replaceUnit (x y : N) (s : t) : t :=
  map (fun c => if (c =? x)%N then y else c) s.

(** [s.replace(/\s+/g, ' ')]: every maximal run of white space becomes one
    space; [inRun] says that the previous code unit was white space. *)
Fixpoint collapseWhiteSpace (inRun : bool) (s : t) : t :=
  match s with
  | [] => []
  | c :: rest =>
      if isWhiteSpace c
      then (if inRun then collapseWhiteSpace true rest
            else 32%N :: collapseWhiteSpace true rest)
      else c :: collapseWhiteSpace false rest
  end.

End JSString.

(* ----------------------------------------------------------------- *)
(** ** Exceptions *)

(** What a [throw] carries: an [Error] object with its message, or any
    other value. *)
Inductive Thrown : Type :=
| JSError (message : JSString.t)
| NonError.

(** The outcome of a call: a value, or an exception (a rejected promise,
    for an awaited call). *)
Inductive Completion (A : Type) : Type :=
| Normal (value : A)
| Throw (error : Thrown).

Arguments Normal {A} value.
Arguments Throw {A} error.

Definition bind {A B : Type} (c : Completion A) (k : A -> Completion B)
  : Completion B :=
  match c with
  | Normal a => k a
  | Throw e => Throw e
  end.

Declare Scope completion_scope.
Delimit Scope completion_scope with completion.
Notation "x <- c ;; k" := (bind c (fun x => k))
  (at level 61, c at next level, right associativity) : completion_scope.

(* ----------------------------------------------------------------- *)
(** ** Arrays *)

Module JSArray.

(** [Array.prototype.slice(start, end)] for integral arguments: a negative
    argument counts from the end of the array, and both are clamped to the
    array. *)
Definition relativeIndex (len i : Z) : Z :=
  if (i <? 0)%Z then Z.max (len + i) 0 else Z.min i len.

Definition slice {A : Type} (l : list A) (start end_ : Z) : list A :=
  let len := Z.of_nat (length l) in
  let k := relativeIndex len start in
  let final := relativeIndex len end_ in
  let count := Z.max (final - k) 0 in
  firstn (Z.to_nat count) (skipn (Z.to_nat k) l).

(** [Array.prototype.sort(comparefn)].  ECMAScript (since 2019) specifies a
    stable sort: an element moves behind a later element only when the
    comparator puts it after that element, that is when [comparefn x y > 0];
    a NaN from the comparator counts as [+0].  The model inserts the
    elements from the last to the first; for a comparator that is consistent
    on the array (which is the case of every call in this program, see
    [compareFn_consistent]) every stable sort returns this same array. *)
Fixpoint sortInsert {A : Type} (comparefn : A -> A -> float) (x : A)
  (sorted : list A) : list A :=
  match sorted with
  | [] => [x]
  | y :: rest =>
      if (0 <? comparefn x y)%float then y :: sortInsert comparefn x rest
      else x :: sorted
  end.

Definition sort {A : Type} (comparefn : A -> A -> float) (l : list A)
  : list A :=
  fold_right (sortInsert comparefn) [] l.

(** [push] appends at the end. *)
Definition push {A : Type} (l : list A) (x : A) : list A := l ++ [x].

End JSArray.

(* ----------------------------------------------------------------- *)
(** ** The document model ([src/lib/models/Document.ts]) *)

Module Metadata.

(** [metadata], with [ragPipeline] and its [embeddingConfig] flattened. *)
Record t : Type := {
  chunkCount : nat;
  embeddingCount : nat;
  processingTime : Z;
  stage : JSString.t;
  nextSteps : list JSString.t;
  model : JSString.t;
  normalized : bool
}.

End Metadata.

Module IDocument.

Record t : Type := {
  _id : JSString.t;
  userId : JSString.t;
  fileName : JSString.t;
  fileType : JSString.t;
  fileSize : Z;
  originalText : JSString.t;
  chunks : list JSString.t;
  embeddings : list (list float);
  metadata : Metadata.t
}.

End IDocument.

(** The documents collection, in the order in which the database returns
    its records. *)
Definition Store := list IDocument.t.

(** [Document.find({ userId })]: the records whose [userId] is the one
    asked, in retrieval order. *)
Definition Document_find (userId : JSString.t) (store : Store)
  : list IDocument.t :=
  filter (fun d => JSString.eqb (IDocument.userId d) userId) store.

(* ----------------------------------------------------------------- *)
(** ** Similarity search ([src/lib/utils/vector-search.ts]) *)

Module SearchResult.

Record t : Type := {
  documentId : JSString.t;
  fileName : JSString.t;
  chunkIndex : nat;
  chunk : option JSString.t;   (* [None]: [undefined], no chunk at the index *)
  similarity : float;
  metadata : Metadata.t
}.

End SearchResult.

(** [vec[i]]; reading past the end gives [undefined], which is NaN in the
    arithmetic below. *)
Definition at_index (vec : list float) (i : nat) : float := nth i vec nan.

(** The three accumulators of the loop of [cosineSimilarity]. *)
Record Sums : Type := {
  dotProduct : float;
  normA : float;
  normB : float
}.

Definition cosineStep (vecA vecB : list float) (acc : Sums) (i : nat) : Sums :=
  {| dotProduct := dotProduct acc + at_index vecA i * at_index vecB i;
     normA := normA acc + at_index vecA i * at_index vecA i;
     normB := normB acc + at_index vecB i * at_index vecB i |}%float.

Definition lengthError : Thrown :=
  JSError (JSString.lit "Vectors must have the same length").

Definition cosineSimilarity (vecA vecB : list float) : Completion float :=
  if negb (length vecA =? length vecB)%nat then Throw lengthError
  else
    let acc :=
      fold_left (cosineStep vecA vecB) (seq 0 (length vecA))
        {| dotProduct := 0; normA := 0; normB := 0 |} in
    let normA := sqrt (normA acc) in
    let normB := sqrt (normB acc) in
    if ((normA =? 0) || (normB =? 0))%float then Normal 0%float
    else Normal (dotProduct acc / (normA * normB))%float.

Section Search.

Variable queryEmbedding : list float.
Variable similarityThreshold : float.

Local Open Scope completion_scope.

(** The inner loop, from index [i] on: [pending] are the embeddings
    [document.embeddings[i]], [document.embeddings[i+1]], ... still to be
    compared. *)
Fixpoint chunkLoop (document : IDocument.t) (i : nat)
  (pending : list (list float)) (results : list SearchResult.t)
  : Completion (list SearchResult.t) :=
  match pending with
  | [] => Normal results
  | chunkEmbedding :: pending' =>
      similarity <- cosineSimilarity queryEmbedding chunkEmbedding ;;
      chunkLoop document (S i) pending'
        (if (similarityThreshold <=? similarity)%float
         then JSArray.push results
                {| SearchResult.documentId := IDocument._id document;
                   SearchResult.fileName := IDocument.fileName document;
                   SearchResult.chunkIndex := i;
                   SearchResult.chunk := nth_error (IDocument.chunks document) i;
                   SearchResult.similarity := similarity;
                   SearchResult.metadata := IDocument.metadata document |}
         else results)
  end.

(** The outer loop over the user's documents. *)
Fixpoint documentLoop (documents : list IDocument.t)
  (results : list SearchResult.t) : Completion (list SearchResult.t) :=
  match documents with
  | [] => Normal results
  | document :: documents' =>
      results' <-
        match IDocument.embeddings document with
        | [] => Normal results
        | _ :: _ => chunkLoop document 0 (IDocument.embeddings document) results
        end ;;
      documentLoop documents' results'
  end.

End Search.

(** The comparator handed to [sort]: highest similarity first. *)
Definition compareFn (a b : SearchResult.t) : float :=
  (SearchResult.similarity b - SearchResult.similarity a)%float.

(** [searchSimilarDocuments], run against the content [store] of the
    documents collection.  [limit] is the integer the caller passes. *)
Definition searchSimilarDocuments (queryEmbedding : list float)
  (userId : JSString.t) (limit : Z) (similarityThreshold : float)
  (store : Store) : Completion (list SearchResult.t) :=
  (results <-
     documentLoop queryEmbedding similarityThreshold
       (Document_find userId store) [] ;;
   Normal (JSArray.slice (JSArray.sort compareFn results) 0 limit))%completion.

(* ----------------------------------------------------------------- *)
(** ** The upload route ([POST] of [app/api/upload/route.ts]) *)

Module Upload.

Record File : Type := {
  name : JSString.t;
  type : JSString.t;
  size : Z
}.

Record User : Type := {
  email : JSString.t;
  geminiApiKey : option JSString.t
}.

(** One embedding of the service's answer; [values] may be missing. *)
Record ContentEmbedding : Type := {
  values : option (list float)
}.

Record EmbedContentResponse : Type := {
  embeddings : option (list ContentEmbedding)
}.

(** What the request and the collaborators of the route answer during one
    upload: the form's file ([await request.formData()], which may reject,
    then [formData.get('file')]), the bytes of the file
    ([await file.arrayBuffer()], which may reject), the text extractors,
    LangChain's splitter (which may reject), the session (derived from the
    request, hence the same at both places where the route asks for it),
    the database and the embedding service. *)
Record Env : Type := {
  formFile : Completion (option File);
  arrayBuffer : Completion unit;
  parsePDF : Completion JSString.t;
  bufferText : JSString.t;
  extractRawText : Completion JSString.t;
  splitText : JSString.t -> Completion (list JSString.t);
  sessionEmail : option JSString.t;
  dbConnect : Completion unit;
  User_findOne : JSString.t -> Completion (option User);
  embedContent : JSString.t -> list JSString.t -> Completion EmbedContentResponse;
  Document_create : IDocument.t -> Completion JSString.t;
  responseTime : Z;
  saveTime : Z
}.

(** The JSON body of a successful upload; [metadata] is flattened. *)
Record UploadResponse : Type := {
  success : bool;
  fileName : JSString.t;
  fileSize : Z;
  fileType : JSString.t;
  extractedTextLength : nat;
  chunkCount : nat;
  embeddingCount : nat;
  hasEmbeddings : bool;
  embeddingError : option JSString.t;
  chunks : list JSString.t;
  resp_embeddings : list (list float);
  originalText : JSString.t;
  processingTime : Z;
  stage : JSString.t;
  nextSteps : list JSString.t;
  model : JSString.t;
  normalized : bool;
  documentId : option JSString.t
}.

Inductive Body : Type :=
| ErrorBody (error : JSString.t)
| UploadBody (response : UploadResponse).

Record Response : Type := {
  status : Z;
  body : Body
}.

Definition errorResponse (error : string) (status : Z) : Response :=
  {| status := status; body := ErrorBody (JSString.lit error) |}.

Definition pdfType : JSString.t := JSString.lit "application/pdf".
Definition plainType : JSString.t := JSString.lit "text/plain".
Definition docxType : JSString.t :=
  JSString.lit
    "application/vnd.openxmlformats-officedocument.wordprocessingml.document".

Definition allowedTypes : list JSString.t := [pdfType; plainType; docxType].

Definition maxSize : Z := 10 * 1024 * 1024.

(** A string that is neither missing nor empty. *)
Definition truthy (s : option JSString.t) : option JSString.t :=
  match s with
  | Some (_ :: _) => s
  | _ => None
  end.

(** Text extraction by declared type: a response (an early [return]) or
    the extracted text. *)
Definition extractText (env : Env) (file : File) : Response + JSString.t :=
  if JSString.eqb (type file) pdfType then
    match parsePDF env with
    | Normal text => inr text
    | Throw _ =>
        inl (errorResponse
               "Failed to parse PDF file. Please ensure it contains readable text."
               400)
    end
  else if JSString.eqb (type file) plainType then inr (bufferText env)
  else if JSString.eqb (type file) docxType then
    match extractRawText env with
    | Normal text => inr text
    | Throw _ =>
        inl (errorResponse
               "Failed to parse DOCX file. Please ensure it contains readable text."
               400)
    end
  else inr [].

Definition cleanText (extractedText : JSString.t) : JSString.t :=
  JSString.trim
    (JSString.collapseWhiteSpace false
       (JSString.replaceUnit 9 32
          (JSString.replaceUnit 13 10
             (JSString.replaceCRLF extractedText)))).

(** [chunks.filter(chunk => chunk.trim().length > 0)] *)
Definition filterChunks (chunks : list JSString.t) : list JSString.t :=
  filter (fun chunk => (0 <? length (JSString.trim chunk))%nat) chunks.

(** The callback of [embeddingResponse.embeddings.map]: truncation to 768
    components, then division by the magnitude. *)
Definition normalizeEmbedding (embedding : ContentEmbedding) : list float :=
  let values := match values embedding with Some v => v | None => [] end in
  let truncatedValues := JSArray.slice values 0 768 in
  let magnitude :=
    sqrt (fold_left (fun sum val => sum + val * val)%float truncatedValues
            0%float) in
  map (fun val => val / magnitude)%float truncatedValues.

Definition notAuthenticated : Thrown :=
  JSError (JSString.lit "User not authenticated").

Definition notConfigured : Thrown :=
  JSError (JSString.lit "Gemini API key not configured").

Definition requireSession (env : Env) : Completion JSString.t :=
  match truthy (sessionEmail env) with
  | Some email => Normal email
  | None => Throw notAuthenticated
  end.

(** The body of the first inner [try]: the embeddings of the chunks, or the
    exception that leaves it. *)
Definition generateEmbeddings (env : Env) (chunks : list JSString.t)
  : Completion (list (list float)) :=
  (email <- requireSession env ;;
   _ <- dbConnect env ;;
   user <- User_findOne env email ;;
   apiKey <-
     match truthy (match user with
                   | Some u => geminiApiKey u
                   | None => None
                   end) with
     | Some key => Normal key
     | None => Throw notConfigured
     end ;;
   embeddingResponse <- embedContent env apiKey chunks ;;
   Normal match embeddings embeddingResponse with
          | Some es => map normalizeEmbedding es
          | None => []
          end)%completion.

(** [error instanceof Error ? error : new Error('Unknown embedding error')],
    then its [message]. *)
Definition errorMessage (error : Thrown) : JSString.t :=
  match error with
  | JSError message => message
  | NonError => JSString.lit "Unknown embedding error"
  end.

Definition stageOf (embeddings : list (list float)) : JSString.t :=
  match embeddings with
  | _ :: _ => JSString.lit "Embeddings Generated"
  | [] => JSString.lit "Document Processing Complete"
  end.

Definition nextStepsOf (embeddings : list (list float)) : list JSString.t :=
  match embeddings with
  | _ :: _ => [JSString.lit "Storage"; JSString.lit "Retrieval Setup"]
  | [] => [JSString.lit "Vector Embedding"; JSString.lit "Storage";
           JSString.lit "Retrieval Setup"]
  end.

Definition modelName : JSString.t := JSString.lit "gemini-embedding-001".

(** [documentData], before the database gives it an [_id]. *)
Definition documentData (env : Env) (email : JSString.t) (file : File)
  (cleanedText : JSString.t) (chunks : list JSString.t)
  (embeddings : list (list float)) : IDocument.t :=
  {| IDocument._id := [];
     IDocument.userId := email;
     IDocument.fileName := name file;
     IDocument.fileType := type file;
     IDocument.fileSize := size file;
     IDocument.originalText := cleanedText;
     IDocument.chunks := chunks;
     IDocument.embeddings := embeddings;
     IDocument.metadata :=
       {| Metadata.chunkCount := length chunks;
          Metadata.embeddingCount := length embeddings;
          Metadata.processingTime := saveTime env;
          Metadata.stage := stageOf embeddings;
          Metadata.nextSteps := nextStepsOf embeddings;
          Metadata.model := modelName;
          Metadata.normalized := true |} |}.

Definition withId (id : JSString.t) (d : IDocument.t) : IDocument.t :=
  {| IDocument._id := id;
     IDocument.userId := IDocument.userId d;
     IDocument.fileName := IDocument.fileName d;
     IDocument.fileType := IDocument.fileType d;
     IDocument.fileSize := IDocument.fileSize d;
     IDocument.originalText := IDocument.originalText d;
     IDocument.chunks := IDocument.chunks d;
     IDocument.embeddings := IDocument.embeddings d;
     IDocument.metadata := IDocument.metadata d |}.

(** The second inner [try]: the id of the saved document and the new
    content of the collection; an exception is logged and swallowed. *)
Definition saveDocument (env : Env) (store : Store) (file : File)
  (cleanedText : JSString.t) (chunks : list JSString.t)
  (embeddings : list (list float)) : option JSString.t * Store :=
  match requireSession env with
  | Throw _ => (None, store)
  | Normal email =>
      let data := documentData env email file cleanedText chunks embeddings in
      match Document_create env data with
      | Normal id => (Some id, store ++ [withId id data])
      | Throw _ => (None, store)
      end
  end.

(** The answer of the outer [catch]: whatever is thrown outside the inner
    [try] blocks ends the request with status 500. *)
Definition processingError : Response :=
  errorResponse "Failed to process file. Please try again." 500.

(** The route up to the chunks: an early response (a [return] of the
    checks, or the answer of the outer [catch]), or the file, the cleaned
    text and the filtered chunks. *)
Definition prepare (env : Env)
  : Response + (File * JSString.t * list JSString.t) :=
  match formFile env with
  | Throw _ => inl processingError
  | Normal None => inl (errorResponse "No file provided" 400)
  | Normal (Some file) =>
      if negb (existsb (JSString.eqb (type file)) allowedTypes) then
        inl (errorResponse
               "Unsupported file type. Please upload PDF, TXT, or DOCX files."
               400)
      else if (maxSize <? size file)%Z then
        inl (errorResponse "File size too large. Maximum size is 10MB." 400)
      else
        match arrayBuffer env with
        | Throw _ => inl processingError
        | Normal _ =>
            match extractText env file with
            | inl response => inl response
            | inr extractedText =>
                if (length (JSString.trim extractedText) =? 0)%nat then
                  inl (errorResponse
                         "No text content could be extracted from the file."
                         400)
                else
                  let cleanedText := cleanText extractedText in
                  match splitText env cleanedText with
                  | Throw _ => inl processingError
                  | Normal chunks =>
                      inr (file, cleanedText, filterChunks chunks)
                  end
            end
        end
  end.

(** The route from the chunks on: embeddings, response, persistence.  Both
    inner [try] blocks catch what is thrown inside them, so nothing of this
    part reaches the outer [catch]. *)
Definition finish (env : Env) (store : Store) (file : File)
  (cleanedText : JSString.t) (chunks : list JSString.t) : Response * Store :=
  let '(embeddings, embeddingError) :=
    match generateEmbeddings env chunks with
    | Normal embeddings => (embeddings, None)
    | Throw error => ([], Some (errorMessage error))
    end in
  let '(documentId, store') :=
    saveDocument env store file cleanedText chunks embeddings in
  ({| status := 200;
      body := UploadBody
        {| success := true;
           fileName := name file;
           fileSize := size file;
           fileType := type file;
           extractedTextLength := length cleanedText;
           chunkCount := length chunks;
           embeddingCount := length embeddings;
           hasEmbeddings := (0 <? length embeddings)%nat;
           embeddingError := embeddingError;
           chunks := chunks;
           resp_embeddings := embeddings;
           originalText :=
             JSArray.slice cleanedText 0 500 ++
             (if (500 <? length cleanedText)%nat then JSString.lit "..."
              else []);
           processingTime := responseTime env;
           stage := stageOf embeddings;
           nextSteps := nextStepsOf embeddings;
           model := modelName;
           normalized := true;
           documentId := documentId |} |},
   store').

(** The handler: the answer of the route (status 200, 400 or 500) and the
    content of the documents collection after the request. *)
Definition POST (env : Env) (store : Store) : Response * Store :=
  match prepare env with
  | inl response => (response, store)
  | inr (file, cleanedText, chunks) => finish env store file cleanedText chunks
  end.

End Upload.

(* ----------------------------------------------------------------- *)
(** ** Reference definitions, in the words of the specification *)

(** The dot product and the Euclidean norm, summed from the first
    component to the last. *)
Definition dot (a b : list float) : float :=
  fold_left (fun sum xy => sum + fst xy * snd xy)%float (combine a b) 0%float.

Definition sumOfSquares (v : list float) : float :=
  fold_left (fun sum x => sum + x * x)%float v 0%float.

Definition euclideanNorm (v : list float) : float := sqrt (sumOfSquares v).

(** [dot(a, b) / (|a| * |b|)], defined as exactly [0] whenever either norm
    is [0]. *)
Definition similarityOf (a b : list float) : float :=
  if ((euclideanNorm a =? 0) || (euclideanNorm b =? 0))%float then 0%float
  else (dot a b / (euclideanNorm a * euclideanNorm b))%float.

(** A vector all of whose components are zero ([+0] or [-0]). *)
Definition isZero (x : float) : Prop := x = 0%float \/ x = (-0)%float.

Definition zeroVector (v : list float) : Prop := Forall isZero v.

(** The raw vector of an embedding of the service ([embedding.values || []]). *)
Definition rawValues (embedding : Upload.ContentEmbedding) : list float :=
  match Upload.values embedding with
  | Some v => v
  | None => []
  end.

(** Every candidate embedding has the length of the query. *)
Definition dimensionsMatch (queryEmbedding : list float)
  (documents : list IDocument.t) : Prop :=
  Forall (fun d =>
            Forall (fun e => length e = length queryEmbedding)
              (IDocument.embeddings d))
    documents.

(** The (document, chunk) pairs in scan order: documents in retrieval
    order, and within a document chunk indices ascending. *)
Definition pairsFrom (d : IDocument.t) (i : nat) (pending : list (list float))
  : list (IDocument.t * nat * list float) :=
  map (fun ie => (d, fst ie, snd ie)) (combine (seq i (length pending)) pending).

Definition pairsOf (d : IDocument.t) : list (IDocument.t * nat * list float) :=
  pairsFrom d 0 (IDocument.embeddings d).

Definition scanOrder (documents : list IDocument.t)
  : list (IDocument.t * nat * list float) :=
  flat_map pairsOf documents.

Definition resultOf (queryEmbedding : list float)
  (pair : IDocument.t * nat * list float) : SearchResult.t :=
  let '(d, i, e) := pair in
  {| SearchResult.documentId := IDocument._id d;
     SearchResult.fileName := IDocument.fileName d;
     SearchResult.chunkIndex := i;
     SearchResult.chunk := nth_error (IDocument.chunks d) i;
     SearchResult.similarity := similarityOf queryEmbedding e;
     SearchResult.metadata := IDocument.metadata d |}.

(** Step 4 of the search: the pairs whose similarity reaches the
    threshold, still in scan order. *)
Definition keptPairs (queryEmbedding : list float) (threshold : float)
  (documents : list IDocument.t) : list SearchResult.t :=
  filter (fun r => (threshold <=? SearchResult.similarity r)%float)
    (map (resultOf queryEmbedding) (scanOrder documents)).

(** A result comes from a document of the store that [userId] owns. *)
Definition ownedResult (userId : JSString.t) (store : Store)
  (r : SearchResult.t) : Prop :=
  exists d, In d store /\ IDocument.userId d = userId /\
            SearchResult.documentId r = IDocument._id d /\
            SearchResult.fileName r = IDocument.fileName d /\
            SearchResult.chunk r =
              nth_error (IDocument.chunks d) (SearchResult.chunkIndex r) /\
            SearchResult.chunkIndex r < length (IDocument.embeddings d).

(** The similarity of a result reaches the threshold. *)
Definition reachesThreshold (threshold : float) (r : SearchResult.t) : Prop :=
  (threshold <=? SearchResult.similarity r)%float = true.

(** The results whose similarity equals [s]. *)
Definition hasSimilarity (s : float) (r : SearchResult.t) : bool :=
  (SearchResult.similarity r =? s)%float.

(** Non-increasing by similarity. *)
Definition geSimilarity (a b : SearchResult.t) : Prop :=
  (SearchResult.similarity b <=? SearchResult.similarity a)%float = true.

(* ----------------------------------------------------------------- *)
(** ** Sample data *)

Module Sample.

Definition metadata : Metadata.t :=
  {| Metadata.chunkCount := 3;
     Metadata.embeddingCount := 3;
     Metadata.processingTime := 0;
     Metadata.stage := JSString.lit "Embeddings Generated";
     Metadata.nextSteps := [];
     Metadata.model := JSString.lit "gemini-embedding-001";
     Metadata.normalized := true |}.

Definition alice : JSString.t := JSString.lit "alice@example.org".
Definition bob : JSString.t := JSString.lit "bob@example.org".

Definition document (id owner : string) (embeddings : list (list float))
  : IDocument.t :=
  {| IDocument._id := JSString.lit id;
     IDocument.userId := JSString.lit owner;
     IDocument.fileName := JSString.lit "notes.txt";
     IDocument.fileType := JSString.lit "text/plain";
     IDocument.fileSize := 12;
     IDocument.originalText := JSString.lit "aa bb cc";
     IDocument.chunks := [JSString.lit "aa"; JSString.lit "bb"; JSString.lit "cc"];
     IDocument.embeddings := embeddings;
     IDocument.metadata := metadata |}.

(** Alice owns two documents, Bob one whose single embedding equals the
    query [[1; 0]] used below. *)
Definition store : Store :=
  [ document "d1" "alice@example.org" [[1; 0]; [0; 1]; [3; 4]];
    document "d2" "bob@example.org" [[1; 0]];
    document "d3" "alice@example.org" [[2; 0]] ]%float.

(** A store in which one of Alice's embeddings has three components. *)
Definition malformedStore : Store :=
  [ document "d1" "alice@example.org" [[1; 0]; [0; 0; 0]] ]%float.

(** An upload of a plain-text file by [sessionEmail]; the user has no
    Gemini API key, and [create] is the answer of [Document.create]. *)
Definition upload (sessionEmail : option JSString.t)
  (create : Completion JSString.t) : Upload.Env :=
  {| Upload.formFile :=
       Normal (Some {| Upload.name := JSString.lit "notes.txt";
                       Upload.type := JSString.lit "text/plain";
                       Upload.size := 5 |});
     Upload.arrayBuffer := Normal tt;
     Upload.parsePDF := Throw NonError;
     Upload.bufferText := JSString.lit "aa bb";
     Upload.extractRawText := Throw NonError;
     Upload.splitText := fun text => Normal [text];
     Upload.sessionEmail := sessionEmail;
     Upload.dbConnect := Normal tt;
     Upload.User_findOne :=
       fun email =>
         Normal (Some {| Upload.email := email; Upload.geminiApiKey := None |});
     Upload.embedContent := fun _ _ => Throw NonError;
     Upload.Document_create := fun _ => create;
     Upload.responseTime := 1000;
     Upload.saveTime := 1001 |}.

Definition uploadedFile : Upload.File :=
  {| Upload.name := JSString.lit "notes.txt";
     Upload.type := JSString.lit "text/plain";
     Upload.size := 5 |}.

End Sample.

(* ----------------------------------------------------------------- *)
(** ** Auxiliary definitions on binary floating-point data *)

(** A finite or infinite number of sign [s]: neither a zero nor a NaN. *)
Definition SFsigned (s : bool) (x : spec_float) : Prop :=
  match x with
  | S754_finite s' _ _ | S754_infinity s' => s' = s
  | _ => False
  end.

(** The signed mantissa of a finite number, written at exponent [ez]. *)
Definition aligned (s : bool) (m : positive) (e ez : Z) : Z :=
  cond_Zopp s (Zpos (fst (shl_align m e ez))).

Definition SFpositive (x : spec_float) : bool := SFltb (S754_zero false) x.

Definition SFnegative (x : spec_float) : bool := SFltb x (S754_zero false).

(** A non-NaN number as an integer multiple of the smallest subnormal;
    the infinities lie beyond every finite number. *)
Definition SFkey (prec emax : Z) (x : spec_float) : Z :=
  match x with
  | S754_zero _ | S754_nan => 0
  | S754_infinity s => cond_Zopp s (2 ^ (emax - SpecFloat.emin prec emax))
  | S754_finite s m e => cond_Zopp s (Zpos m * 2 ^ (e - SpecFloat.emin prec emax))
  end.

Definition SFisNaN (x : spec_float) : bool :=
  match x with S754_nan => true | _ => false end.

(* ----------------------------------------------------------------- *)
(** ** Deleting a document ([deleteDocument] of [vector-search.ts]) *)

(** [Document.findOneAndDelete] on a filter that Mongoose has cast: the
    first record that has both the ObjectId and the owner asked is removed
    from the collection and returned.  An [_id] is compared as an ObjectId;
    a record carries it in the form [_id.toString()], which is also the
    form of [objectId] here. *)
Fixpoint Document_findOneAndDelete (objectId userId : JSString.t)
  (store : Store) : option IDocument.t * Store :=
  match store with
  | [] => (None, [])
  | d :: rest =>
      if JSString.eqb (IDocument._id d) objectId
         && JSString.eqb (IDocument.userId d) userId
      then (Some d, rest)
      else
        let '(result, rest') := Document_findOneAndDelete objectId userId rest in
        (result, d :: rest')
  end.

Section Delete.

(** The cast that Mongoose applies to [_id: documentId] of the filter: the
    ObjectId that the string denotes, given by its [toString()], or the
    [CastError] with which the query rejects when the string denotes
    none. *)
Variable castObjectId : JSString.t -> Completion JSString.t.

(** [deleteDocument]: [!!result], or what the query throws (the [catch]
    logs and rethrows), and the collection after the call. *)
Definition deleteDocument (documentId userId : JSString.t) (store : Store)
  : Completion bool * Store :=
  match castObjectId documentId with
  | Throw error => (Throw error, store)
  | Normal objectId =>
      let '(result, store') :=
        Document_findOneAndDelete objectId userId store in
      (Normal match result with Some _ => true | None => false end, store')
  end.

End Delete.

(* ----------------------------------------------------------------- *)
(** ** Listing a user's documents ([getUserDocuments]) *)

Module UserDocuments.

Record Summary : Type := {
  documentId : JSString.t;
  fileName : JSString.t;
  fileType : JSString.t;
  fileSize : Z;
  chunkCount : nat;
  embeddingCount : nat;
  createdAt : Z;
  metadata : Metadata.t
}.

Section Listing.

(** The [createdAt] that [timestamps: true] adds to every record, and the
    database's [.sort({ createdAt: -1 })]; the order it gives to records of
    equal [createdAt] is its own. *)
Variable createdAtOf : IDocument.t -> Z.
Variable sortNewestFirst : list IDocument.t -> list IDocument.t.

Definition summary (doc : IDocument.t) : Summary :=
  {| documentId := IDocument._id doc;
     fileName := IDocument.fileName doc;
     fileType := IDocument.fileType doc;
     fileSize := IDocument.fileSize doc;
     chunkCount := Metadata.chunkCount (IDocument.metadata doc);
     embeddingCount := Metadata.embeddingCount (IDocument.metadata doc);
     createdAt := createdAtOf doc;
     metadata := IDocument.metadata doc |}.

Definition getUserDocuments (userId : JSString.t) (store : Store)
  : list Summary :=
  map summary (sortNewestFirst (Document_find userId store)).

End Listing.

(** A sort by descending key, to stand for the database's. *)
Fixpoint insertDescending {A : Type} (key : A -> Z) (x : A) (l : list A)
  : list A :=
  match l with
  | [] => [x]
  | y :: rest =>
      if (key y <? key x)%Z then x :: l
      else y :: insertDescending key x rest
  end.

Definition sortDescending {A : Type} (key : A -> Z) (l : list A) : list A :=
  fold_right (insertDescending key) [] l.

End UserDocuments.

(* ----------------------------------------------------------------- *)
(** ** Cleaned text: reference definitions *)

Definition isContent (c : N) : bool := negb (JSString.isWhiteSpace c).

(** The code units of a string that are not white space, in order. *)
Definition contentOf (s : JSString.t) : JSString.t := filter isContent s.

(** White space occurs only as the space U+0020 and never twice in a row;
    [afterSpace] says that the code unit before [s] was a space (or that
    [s] is the beginning of the text, where no space is allowed). *)
Fixpoint spaced (afterSpace : bool) (s : JSString.t) : bool :=
  match s with
  | [] => true
  | c :: rest =>
      if JSString.isWhiteSpace c
      then (c =? 32)%N && negb afterSpace && spaced true rest
      else spaced false rest
  end.

(** As [spaced], and the text does not end with a space. *)
Fixpoint singleSpaced (afterSpace : bool) (s : JSString.t) : bool :=
  match s with
  | [] => negb afterSpace
  | c :: rest =>
      if JSString.isWhiteSpace c
      then (c =? 32)%N && negb afterSpace && singleSpaced true rest
      else singleSpaced false rest
  end.

(** A clean text: empty, or words separated by single spaces, without
    white space at either end. *)
Definition isClean (s : JSString.t) : bool :=
  match s with
  | [] => true
  | _ :: _ => singleSpaced true s
  end.

(** [trimEnd], by recursion from the front. *)
Fixpoint trimEndRec (s : JSString.t) : JSString.t :=
  match s with
  | [] => []
  | c :: rest =>
      match trimEndRec rest with
      | [] => if JSString.isWhiteSpace c then [] else [c]
      | r => c :: r
      end
  end.


(* ----------------------------------------------------------------- *)
(** ** The Gemini API key route ([POST], [GET], [DELETE]) *)

Module GeminiKeyRoute.

(** The users collection, with the records of [Upload.User]. *)
Definition Users := list Upload.User.

Inductive Body : Type :=
| ErrorBody (error : JSString.t)
| MessageBody (message : JSString.t)      (* [{ success: true, message }] *)
| StatusBody (hasApiKey : bool).          (* [{ success: true, hasApiKey }] *)

Record Response : Type := {
  status : Z;
  body : Body
}.

(** What one request brings: the session's email, the [geminiApiKey] field
    of the JSON body ([request.json()] may reject) and the outcome of
    [dbConnect]. *)
Record Request : Type := {
  sessionEmail : option JSString.t;
  json : Completion (option JSString.t);
  dbConnect : Completion unit
}.

Definition errorResponse (error : string) (status : Z) : Response :=
  {| status := status; body := ErrorBody (JSString.lit error) |}.

Definition setKey (key : option JSString.t) (user : Upload.User) : Upload.User :=
  {| Upload.email := Upload.email user; Upload.geminiApiKey := key |}.

Section Route.

(** The casts that the schema of [User.ts] declares for [email]
    ([lowercase], [trim]) and for [geminiApiKey] ([trim]), as Mongoose
    applies them to a filter and to an update. *)
Variable castEmail : JSString.t -> JSString.t.
Variable castKey : JSString.t -> JSString.t.

(** [User.findOne({ email }, '+geminiApiKey')] *)
Definition findOne (email : JSString.t) (users : Users) : option Upload.User :=
  find (fun u => JSString.eqb (Upload.email u) (castEmail email)) users.

(** [User.findOneAndUpdate({ email }, update, { new: true })]: the first
    record of that email is updated; the updated record is returned. *)
Fixpoint findOneAndUpdate (email : JSString.t)
  (update : Upload.User -> Upload.User) (users : Users)
  : option Upload.User * Users :=
  match users with
  | [] => (None, [])
  | u :: rest =>
      if JSString.eqb (Upload.email u) (castEmail email)
      then (Some (update u), update u :: rest)
      else
        let '(updated, rest') := findOneAndUpdate email update rest in
        (updated, u :: rest')
  end.

Definition POST (request : Request) (users : Users) : Response * Users :=
  match Upload.truthy (sessionEmail request) with
  | None => (errorResponse "Unauthorized" 401, users)
  | Some email =>
      match json request with
      | Throw _ => (errorResponse "Failed to save Gemini API key" 500, users)
      | Normal geminiApiKey =>
          match Upload.truthy geminiApiKey with
          | None => (errorResponse "Gemini API key is required" 400, users)
          | Some key =>
              match dbConnect request with
              | Throw _ =>
                  (errorResponse "Failed to save Gemini API key" 500, users)
              | Normal _ =>
                  match findOneAndUpdate email (setKey (Some (castKey key)))
                          users with
                  | (None, _) => (errorResponse "User not found" 404, users)
                  | (Some _, users') =>
                      ({| status := 200;
                          body := MessageBody
                                    (JSString.lit
                                       "Gemini API key saved successfully") |},
                       users')
                  end
              end
          end
      end
  end.

Definition GET (request : Request) (users : Users) : Response :=
  match Upload.truthy (sessionEmail request) with
  | None => errorResponse "Unauthorized" 401
  | Some email =>
      match dbConnect request with
      | Throw _ => errorResponse "Failed to retrieve API key status" 500
      | Normal _ =>
          match findOne email users with
          | None => errorResponse "User not found" 404
          | Some user =>
              {| status := 200;
                 body := StatusBody
                           match Upload.truthy (Upload.geminiApiKey user) with
                           | Some _ => true
                           | None => false
                           end |}
          end
      end
  end.

Definition DELETE (request : Request) (users : Users) : Response * Users :=
  match Upload.truthy (sessionEmail request) with
  | None => (errorResponse "Unauthorized" 401, users)
  | Some email =>
      match dbConnect request with
      | Throw _ => (errorResponse "Failed to delete Gemini API key" 500, users)
      | Normal _ =>
          match findOneAndUpdate email (setKey None) users with
          | (None, _) => (errorResponse "User not found" 404, users)
          | (Some _, users') =>
              ({| status := 200;
                  body := MessageBody
                            (JSString.lit
                               "Gemini API key deleted successfully") |},
               users')
          end
      end
  end.

End Route.

End GeminiKeyRoute.

(* ----------------------------------------------------------------- *)
(** ** The chat page: selecting and removing files ([ChatPage]) *)

Module ChatPage.

Definition allowedTypes : list JSString.t :=
  [ JSString.lit "application/pdf";
    JSString.lit "text/plain";
    JSString.lit
      "application/vnd.openxmlformats-officedocument.wordprocessingml.document" ].

Definition maxSize : Z := 10 * 1024 * 1024.

(** [handleFileSelect], on the files of the input element and the state
    [selectedFiles]: the new state, and the file handed to
    [handleFileUpload] if there is one. *)
Definition handleFileSelect (files selectedFiles : list Upload.File)
  : list Upload.File * option Upload.File :=
  match files with
  | [] => (selectedFiles, None)
  | file :: _ =>
      if negb (existsb (JSString.eqb (Upload.type file)) allowedTypes)
      then (selectedFiles, None)
      else if (maxSize <? Upload.size file)%Z then (selectedFiles, None)
      else (selectedFiles ++ files, Some file)
  end.

(** [array.filter((x, i) => keep x i)], from index [i] on. *)
Fixpoint filterFrom {A : Type} (keep : A -> nat -> bool) (i : nat)
  (l : list A) : list A :=
  match l with
  | [] => []
  | x :: rest =>
      if keep x i then x :: filterFrom keep (S i) rest
      else filterFrom keep (S i) rest
  end.

(** [removeFile]: [files.filter((_, i) => i !== index)] *)
Definition removeFile (index : nat) (files : list Upload.File)
  : list Upload.File :=
  filterFrom (fun _ i => negb (i =? index)%nat) 0 files.

End ChatPage.

(* ----------------------------------------------------------------- *)
(** ** The callbacks of [authOptions] ([lib/auth.ts]) *)

Module Auth.

Record SessionUser : Type := {
  id : JSString.t;
  email : option JSString.t;
  hasGeminiApiKey : option bool      (* [None]: the field is not set *)
}.

(** A record of the users collection ([IUser] of [models/User.ts]), with
    the fields that the callbacks and the routes read or write;
    [createdAt] and [updatedAt], which Mongoose maintains by itself, are
    left out. *)
Module IUser.
Record t : Type := {
  email : JSString.t;
  name : JSString.t;
  geminiApiKey : option JSString.t;
  lastActive : Z
}.
End IUser.



Section Callbacks.

Variable castEmail : JSString.t -> JSString.t.

(** The cast that the schema declares for [name] ([trim]). *)
Variable castName : JSString.t -> JSString.t.

(** [User.findOne({ email: user.email })] on the full records. *)
Definition User_findOne (email : JSString.t) (users : list IUser.t)
  : option IUser.t :=
  find (fun u => JSString.eqb (IUser.email u) (castEmail email)) users.


(** The [session] callback, on the user of the session and [token.userId]:
    the id falls back to the email, then to the empty string; the key flag
    is read from the users collection. *)
Definition session (user : SessionUser) (tokenUserId : option JSString.t)
  (dbConnect : Completion unit) (users : GeminiKeyRoute.Users) : SessionUser :=
  let id :=
    match Upload.truthy tokenUserId with
    | Some userId => userId
    | None =>
        match Upload.truthy (email user) with
        | Some e => e
        | None => []
        end
    end in
  {| id := id;
     email := email user;
     hasGeminiApiKey :=
       match Upload.truthy (email user) with
       | None => hasGeminiApiKey user
       | Some e =>
           match dbConnect with
           | Throw _ => Some false
           | Normal _ =>
               Some match Upload.truthy
                            match GeminiKeyRoute.findOne castEmail e users with
                            | Some u => Upload.geminiApiKey u
                            | None => None
                            end with
                    | Some _ => true
                    | None => false
                    end
           end
       end |}.


End Callbacks.

End Auth.

(* ----------------------------------------------------------------- *)
(** ** More sample data *)

Module Sample2.

(** An upload by a user who has the key ["k"]; the service answers one
    vector of 770 components per chunk. *)
Definition uploadWithKey (sessionEmail : option JSString.t)
  (create : Completion JSString.t) : Upload.Env :=
  {| Upload.formFile := Normal (Some Sample.uploadedFile);
     Upload.arrayBuffer := Normal tt;
     Upload.parsePDF := Throw NonError;
     Upload.bufferText := JSString.lit "aa bb";
     Upload.extractRawText := Throw NonError;
     Upload.splitText := fun text => Normal [text];
     Upload.sessionEmail := sessionEmail;
     Upload.dbConnect := Normal tt;
     Upload.User_findOne :=
       fun email =>
         Normal (Some {| Upload.email := email;
                         Upload.geminiApiKey := Some (JSString.lit "k") |});
     Upload.embedContent :=
       fun _ chunks =>
         Normal {| Upload.embeddings :=
                     Some (map (fun _ =>
                                  {| Upload.values := Some (repeat 1%float 770) |})
                             chunks) |};
     Upload.Document_create := fun _ => create;
     Upload.responseTime := 1000;
     Upload.saveTime := 1001 |}.

(** Two users: Alice without a key, Bob with the key ["kb"]. *)
Definition users : GeminiKeyRoute.Users :=
  [ {| Upload.email := Sample.alice; Upload.geminiApiKey := None |};
    {| Upload.email := Sample.bob;
       Upload.geminiApiKey := Some (JSString.lit "kb") |} ].

(** A request of the key route by [sessionEmail] with the key [key]. *)
Definition keyRequest (sessionEmail : option JSString.t) (key : string)
  : GeminiKeyRoute.Request :=
  {| GeminiKeyRoute.sessionEmail := sessionEmail;
     GeminiKeyRoute.json := Normal (Some (JSString.lit key));
     GeminiKeyRoute.dbConnect := Normal tt |}.


(** Mongoose's cast of a string to an ObjectId, for the strings of 24
    hexadecimal digits: the ObjectId prints in lower case; any other string
    of these samples is refused. *)
Definition isHexDigit (c : N) : bool :=
  ((48 <=? c) && (c <=? 57) || (65 <=? c) && (c <=? 70)
   || (97 <=? c) && (c <=? 102))%N.

Definition toLowerCase (c : N) : N :=
  if ((65 <=? c) && (c <=? 90))%N then (c + 32)%N else c.

Definition castObjectId (documentId : JSString.t) : Completion JSString.t :=
  if (length documentId =? 24)%nat && forallb isHexDigit documentId
  then Normal (map toLowerCase documentId)
  else Throw (JSError (JSString.lit "Cast to ObjectId failed")).

(** The documents of [Sample.store] under the ids that MongoDB gives. *)
Definition documents : Store :=
  [ Sample.document "65a1f0c2b3d4e5f6a7b8c9d1" "alice@example.org"
      [[1; 0]; [0; 1]; [3; 4]];
    Sample.document "65a1f0c2b3d4e5f6a7b8c9d2" "bob@example.org" [[1; 0]];
    Sample.document "65a1f0c2b3d4e5f6a7b8c9d3" "alice@example.org" [[2; 0]]
  ]%float.

End Sample2.

(* ================================================================= *)
(** * Part II: properties *)

(* ----------------------------------------------------------------- *)
(** ** The program on small inputs *)

Example trim_both_ends :
  JSString.trim (9 :: 160 :: JSString.lit "  a b ")%N = JSString.lit "a b".
Proof. reflexivity. Qed.

Example cleanText_collapses_white_space :
  Upload.cleanText (32 :: 97 :: 13 :: 10 :: 9 :: 98 :: 13 :: 32 :: 99 :: 10 :: [])%N
  = JSString.lit "a b c".
Proof. reflexivity. Qed.

Example filterChunks_drops_blank_chunks :
  Upload.filterChunks
    [JSString.lit "aa"; JSString.lit "  "; []; JSString.lit " b"; [10; 9]%N]
  = [JSString.lit "aa"; JSString.lit " b"].
Proof. reflexivity. Qed.

Example slice_examples :
  JSArray.slice [1; 2; 3; 4] 0 2 = [1; 2] /\
  JSArray.slice [1; 2; 3; 4] 0 9 = [1; 2; 3; 4] /\
  JSArray.slice [1; 2; 3; 4] 0 (-1) = [1; 2; 3] /\
  JSArray.slice [1; 2; 3; 4] 1 (-1) = [2; 3] /\
  JSArray.slice [1; 2; 3; 4] (-2) 4 = [3; 4] /\
  JSArray.slice [1; 2; 3; 4] 3 1 = [].
Proof. repeat split. Qed.

Example cosineSimilarity_examples :
  cosineSimilarity [3; 4]%float [3; 4]%float = Normal 1%float /\
  cosineSimilarity [1; 0]%float [0; 1]%float = Normal 0%float /\
  cosineSimilarity [1; 0]%float [3; 4]%float = Normal 0x1.3333333333333p-1%float /\
  cosineSimilarity [0; 0]%float [nan; 1]%float = Normal 0%float /\
  cosineSimilarity [1; 2]%float [1]%float = Throw lengthError.
Proof. repeat split. Qed.

(** Alice's three chunks that reach 0.5 against [[1; 0]]: the two of
    similarity 1 first, in scan order, then the one of similarity 0.6
    (the double [0x1.3333333333333p-1]). *)
Example search_sample :
  option_map
    (map (fun r => (SearchResult.documentId r, SearchResult.chunkIndex r,
                    SearchResult.similarity r)))
    match searchSimilarDocuments [1; 0]%float Sample.alice 5 0.5%float
            Sample.store with
    | Normal out => Some out
    | Throw _ => None
    end
  = Some [(JSString.lit "d1", 0, 1%float); (JSString.lit "d3", 0, 1%float);
          (JSString.lit "d1", 2, 0x1.3333333333333p-1%float)].
Proof. reflexivity. Qed.

(** A document without embeddings contributes nothing, and no error. *)
Example search_document_without_embeddings :
  searchSimilarDocuments [1; 0]%float Sample.alice 5 0.5%float
    [Sample.document "d4" "alice@example.org" []] = Normal [].
Proof. reflexivity. Qed.

(* ----------------------------------------------------------------- *)
(** ** Binary64 arithmetic: the sign of a difference *)

Section SpecFloatRound.
Variables prec emax : Z.
Hypothesis Hprec : (0 < prec)%Z.

Local Abbreviation emin := (SpecFloat.emin prec emax).
Local Abbreviation fexp := (SpecFloat.fexp prec emax).
Local Open Scope Z_scope.

Lemma digits2_pos_bounds (m : positive) :
  2 ^ (Zpos (digits2_pos m) - 1) <= Zpos m < 2 ^ Zpos (digits2_pos m).
Proof.
  induction m as [p IH | p IH |]; cbn [digits2_pos].
  - rewrite Pos2Z.inj_succ.
    replace (Z.succ (Zpos (digits2_pos p)) - 1) with (Z.succ (Zpos (digits2_pos p) - 1)) by lia.
    rewrite !Z.pow_succ_r by lia. lia.
  - rewrite Pos2Z.inj_succ.
    replace (Z.succ (Zpos (digits2_pos p)) - 1) with (Z.succ (Zpos (digits2_pos p) - 1)) by lia.
    rewrite !Z.pow_succ_r by lia. lia.
  - cbn. lia.
Qed.

Lemma shr_1_m (mrs : shr_record) :
  0 <= shr_m mrs -> shr_m (shr_1 mrs) = shr_m mrs / 2.
Proof.
  destruct mrs as [m r s]; cbn [shr_m]. intros Hm.
  destruct m as [| [p | p |] |]; cbn [shr_1 shr_m]; try lia; try reflexivity.
  - apply Z.div_unique with (r := 1); lia.
  - apply Z.div_unique with (r := 0); lia.
Qed.

Lemma pow2_xO (p : positive) : 2 ^ Zpos p~0 = 2 ^ Zpos p * 2 ^ Zpos p.
Proof.
  rewrite <- Z.pow_add_r by lia. apply f_equal. lia.
Qed.

Lemma pow2_xI (p : positive) : 2 ^ Zpos p~1 = 2 * (2 ^ Zpos p * 2 ^ Zpos p).
Proof.
  rewrite <- Z.pow_add_r, <- Z.pow_succ_r by lia. apply f_equal. lia.
Qed.

Lemma iter_shr_1_m (p : positive) : forall mrs : shr_record,
  0 <= shr_m mrs ->
  shr_m (iter_pos shr_1 p mrs) = shr_m mrs / 2 ^ Zpos p.
Proof.
  assert (Hpw : forall k, 0 < 2 ^ Zpos k) by (intros k; apply Z.pow_pos_nonneg; lia).
  assert (Hnn : forall m k, 0 <= m -> 0 <= m / 2 ^ Zpos k).
  { intros m k Hm. apply Z.div_pos; [exact Hm | apply Hpw]. }
  induction p as [p IH | p IH |]; intros mrs Hm; cbn [iter_pos].
  - assert (H1 : 0 <= shr_m (shr_1 mrs)).
    { rewrite shr_1_m by exact Hm. apply Z.div_pos; lia. }
    assert (H2 : 0 <= shr_m (iter_pos shr_1 p (shr_1 mrs))).
    { rewrite IH by exact H1. apply Hnn, H1. }
    rewrite (IH _ H2), (IH _ H1), (shr_1_m _ Hm), pow2_xI.
    pose proof (Hpw p).
    rewrite !Z.div_div by lia. reflexivity.
  - assert (H2 : 0 <= shr_m (iter_pos shr_1 p mrs)).
    { rewrite IH by exact Hm. apply Hnn, Hm. }
    rewrite (IH _ H2), (IH _ Hm), pow2_xO.
    pose proof (Hpw p).
    rewrite !Z.div_div by lia. reflexivity.
  - rewrite shr_1_m by exact Hm. reflexivity.
Qed.

Lemma shr_fexp_pos (m e : Z) (l : location) :
  0 < m -> emin <= e ->
  0 < shr_m (fst (shr_fexp prec emax m e l)) /\ emin <= snd (shr_fexp prec emax m e l).
Proof.
  intros Hm He. unfold shr_fexp, shr.
  assert (Hrec : shr_m (shr_record_of_loc m l) = m).
  { destruct l as [| []]; reflexivity. }
  destruct (fexp (Zdigits2 m + e) - e) as [| n | n] eqn:Hn; cbn [fst snd];
    rewrite ?Hrec; try (split; [exact Hm | exact He]).
  rewrite iter_shr_1_m by (rewrite Hrec; lia). rewrite Hrec.
  destruct m as [| pm |]; try lia. cbn [Zdigits2] in Hn.
  unfold SpecFloat.fexp in Hn.
  pose proof (digits2_pos_bounds pm) as [Hlo _].
  assert (Hle : Zpos n <= Zpos (digits2_pos pm) - 1) by lia.
  split; [| lia].
  apply Z.div_str_pos. split; [apply Z.pow_pos_nonneg; lia |].
  apply Z.le_trans with (2 ^ (Zpos (digits2_pos pm) - 1)); [| exact Hlo].
  apply Z.pow_le_mono_r; lia.
Qed.

Lemma round_nearest_even_pos (m : Z) (l : location) :
  0 < m -> 0 < round_nearest_even m l.
Proof.
  intros Hm. destruct l as [| []]; cbn [round_nearest_even]; try lia.
  destruct (Z.even m); lia.
Qed.

(** Rounding a positive mantissa of exponent at least [emin] never gives a
    zero or a NaN: the result is finite or infinite, with the sign asked. *)
Lemma binary_round_aux_signed (s : bool) (m e : Z) (l : location) :
  0 < m -> emin <= e -> SFsigned s (binary_round_aux prec emax s m e l).
Proof.
  intros Hm He. unfold binary_round_aux.
  pose proof (shr_fexp_pos m e l Hm He) as [H1 H2].
  destruct (shr_fexp prec emax m e l) as [mrs' e'] eqn:E1. cbn [fst snd] in H1, H2.
  pose proof (round_nearest_even_pos (shr_m mrs') (loc_of_shr_record mrs') H1) as H3.
  pose proof (shr_fexp_pos _ e' loc_Exact H3 H2) as [H4 _].
  destruct (shr_fexp prec emax _ e' loc_Exact) as [mrs'' e''] eqn:E2. cbn [fst] in H4.
  destruct (shr_m mrs'') as [| q | q]; try lia.
  destruct (e'' <=? emax - prec); reflexivity.
Qed.

Lemma binary_round_signed (s : bool) (m : positive) (e : Z) :
  emin <= e -> SFsigned s (binary_round prec emax s m e).
Proof.
  intros He. unfold binary_round, shl_align.
  destruct (fexp (Zpos (digits2_pos m) + e) - e) as [| d | d] eqn:Hd;
    try (apply binary_round_aux_signed; lia).
  apply binary_round_aux_signed; [lia |].
  unfold SpecFloat.fexp. lia.
Qed.


(** *** Comparison of canonical floats through a common exponent *)

Lemma shl_align_fst (m : positive) (e ez : Z) :
  ez <= e -> Zpos (fst (shl_align m e ez)) = Zpos m * 2 ^ (e - ez).
Proof.
  intros Hle. unfold shl_align.
  destruct (ez - e) as [| d | d] eqn:Hd; cbn [fst]; try lia.
  - replace (e - ez) with 0 by lia. lia.
  - replace (e - ez) with (Zpos d) by lia.
    rewrite <- Z.shiftl_mul_pow2 by lia. cbn [Z.shiftl].
    apply (Pos.iter_swap_gen _ _ Zpos xO (Z.mul 2)). reflexivity.
Qed.

Lemma canonical_inv (m : positive) (e : Z) :
  canonical_mantissa prec emax m e = true ->
  emin <= e /\ Zpos (digits2_pos m) <= prec /\
  (emin < e -> Zpos (digits2_pos m) = prec).
Proof.
  unfold canonical_mantissa, SpecFloat.fexp. intros H%Z.eqb_eq. lia.
Qed.

Lemma canonical_lt (m1 m2 : positive) (e1 e2 : Z) :
  canonical_mantissa prec emax m1 e1 = true ->
  canonical_mantissa prec emax m2 e2 = true ->
  e1 < e2 -> Zpos m1 < Zpos m2 * 2 ^ (e2 - e1).
Proof.
  intros [He1 [Hd1 _]]%canonical_inv [He2 [_ Hd2]]%canonical_inv Hlt.
  specialize (Hd2 ltac:(lia)).
  pose proof (digits2_pos_bounds m1) as [_ Hu1].
  pose proof (digits2_pos_bounds m2) as [Hl2 _].
  rewrite Hd2 in Hl2.
  assert (H1 : 2 ^ Zpos (digits2_pos m1) <= 2 ^ prec) by (apply Z.pow_le_mono_r; lia).
  assert (H2 : 2 ^ 1 <= 2 ^ (e2 - e1)) by (apply Z.pow_le_mono_r; lia).
  change (2 ^ 1) with 2 in H2.
  assert (H3 : 2 ^ prec = 2 * 2 ^ (prec - 1)).
  { rewrite <- Z.pow_succ_r by lia. apply f_equal. lia. }
  assert (H4 : 0 < 2 ^ (prec - 1)) by (apply Z.pow_pos_nonneg; lia).
  nia.
Qed.

Lemma SFcompare_pos_aligned (m1 m2 : positive) (e1 e2 : Z) :
  canonical_mantissa prec emax m1 e1 = true ->
  canonical_mantissa prec emax m2 e2 = true ->
  match e1 ?= e2 with
  | Lt => Lt
  | Gt => Gt
  | Eq => Pos.compare_cont Eq m1 m2
  end = (Zpos (fst (shl_align m1 e1 (Z.min e1 e2))) ?=
         Zpos (fst (shl_align m2 e2 (Z.min e1 e2)))).
Proof.
  intros C1 C2.
  rewrite !shl_align_fst by lia.
  destruct (Z.compare_spec e1 e2) as [Heq | Hlt | Hgt].
  - subst e2. rewrite Z.min_id, Z.sub_diag. cbn [Z.pow]. rewrite !Z.mul_1_r. reflexivity.
  - rewrite Z.min_l by lia. rewrite Z.sub_diag. cbn [Z.pow]. rewrite Z.mul_1_r.
    symmetry. apply Z.compare_lt_iff. now apply canonical_lt.
  - rewrite Z.min_r by lia. rewrite Z.sub_diag. cbn [Z.pow]. rewrite Z.mul_1_r.
    symmetry. apply Z.compare_gt_iff. apply canonical_lt; auto; lia.
Qed.

Lemma SFcompare_finite_aligned (s1 s2 : bool) (m1 m2 : positive) (e1 e2 : Z) :
  canonical_mantissa prec emax m1 e1 = true ->
  canonical_mantissa prec emax m2 e2 = true ->
  SFcompare (S754_finite s1 m1 e1) (S754_finite s2 m2 e2) =
  Some (aligned s1 m1 e1 (Z.min e1 e2) ?= aligned s2 m2 e2 (Z.min e1 e2)).
Proof.
  intros C1 C2. pose proof (SFcompare_pos_aligned m1 m2 e1 e2 C1 C2) as H.
  unfold aligned. cbn [SFcompare]. f_equal.
  destruct s1, s2; cbn [cond_Zopp]; try reflexivity.
  - rewrite Z.compare_opp.
    rewrite (Z.compare_antisym (Zpos (fst (shl_align m1 e1 (Z.min e1 e2))))), <- H.
    destruct (e1 ?= e2); reflexivity.
  - exact H.
Qed.

(** *** The sign of a difference decides the order *)

Lemma SFsigned_positive (s : bool) (x : spec_float) :
  SFsigned s x -> SFpositive x = negb s.
Proof.
  destruct x as [| s' | | s' m e]; cbn; try contradiction; intros ->; destruct s; reflexivity.
Qed.

Lemma SFsub_positive (x y : spec_float) :
  SpecFloat.valid_binary prec emax x = true ->
  SpecFloat.valid_binary prec emax y = true ->
  SFpositive (SFsub prec emax x y) = SFltb y x.
Proof.
  intros Vx Vy.
  destruct x as [sx | sx | | sx mx ex], y as [sy | sy | | sy my ey];
    try reflexivity; try (destruct sx; reflexivity); try (destruct sy; reflexivity);
    try (destruct sx, sy; reflexivity).
  cbn [SpecFloat.valid_binary] in Vx, Vy. unfold bounded in Vx, Vy.
  apply andb_prop in Vx as [Cx _]. apply andb_prop in Vy as [Cy _].
  unfold SFltb. rewrite (SFcompare_finite_aligned sy sx my mx ey ex Cy Cx).
  cbn [SFsub]. rewrite (Z.min_comm ey ex).
  fold (aligned sx mx ex (Z.min ex ey)). fold (aligned sy my ey (Z.min ex ey)).
  pose proof (canonical_inv _ _ Cx) as [Hex _].
  pose proof (canonical_inv _ _ Cy) as [Hey _].
  assert (Hez : emin <= Z.min ex ey) by lia.
  set (a := aligned sx mx ex (Z.min ex ey)).
  set (b := aligned sy my ey (Z.min ex ey)).
  destruct (Z.compare_spec b a) as [Heq | Hlt | Hgt].
  - replace (a - b) with 0 by lia. reflexivity.
  - destruct (a - b) as [| d | d] eqn:Hd; try lia. cbn [binary_normalize].
    apply (SFsigned_positive false). now apply binary_round_signed.
  - destruct (a - b) as [| d | d] eqn:Hd; try lia. cbn [binary_normalize].
    apply (SFsigned_positive true). now apply binary_round_signed.
Qed.

Lemma SFsigned_negative (s : bool) (x : spec_float) :
  SFsigned s x -> SFnegative x = s.
Proof.
  destruct x as [| s' | | s' m e]; cbn; try contradiction; intros ->; destruct s; reflexivity.
Qed.

Lemma SFsub_negative (x y : spec_float) :
  SpecFloat.valid_binary prec emax x = true ->
  SpecFloat.valid_binary prec emax y = true ->
  SFnegative (SFsub prec emax x y) = SFltb x y.
Proof.
  intros Vx Vy.
  destruct x as [sx | sx | | sx mx ex], y as [sy | sy | | sy my ey];
    try reflexivity; try (destruct sx; reflexivity); try (destruct sy; reflexivity);
    try (destruct sx, sy; reflexivity).
  cbn [SpecFloat.valid_binary] in Vx, Vy. unfold bounded in Vx, Vy.
  apply andb_prop in Vx as [Cx _]. apply andb_prop in Vy as [Cy _].
  unfold SFltb. rewrite (SFcompare_finite_aligned sx sy mx my ex ey Cx Cy).
  cbn [SFsub].
  fold (aligned sx mx ex (Z.min ex ey)). fold (aligned sy my ey (Z.min ex ey)).
  pose proof (canonical_inv _ _ Cx) as [Hex _].
  pose proof (canonical_inv _ _ Cy) as [Hey _].
  assert (Hez : emin <= Z.min ex ey) by lia.
  set (a := aligned sx mx ex (Z.min ex ey)).
  set (b := aligned sy my ey (Z.min ex ey)).
  destruct (Z.compare_spec a b) as [Heq | Hlt | Hgt].
  - replace (a - b) with 0 by lia. reflexivity.
  - destruct (a - b) as [| d | d] eqn:Hd; try lia. cbn [binary_normalize].
    apply (SFsigned_negative true). now apply binary_round_signed.
  - destruct (a - b) as [| d | d] eqn:Hd; try lia. cbn [binary_normalize].
    apply (SFsigned_negative false). now apply binary_round_signed.
Qed.

End SpecFloatRound.

(** *** Comparison as a comparison of integers *)

Section SpecFloatKey.
Variables prec emax : Z.
Hypothesis Hprec : (0 < prec)%Z.
Hypothesis Hemax : (SpecFloat.emin prec emax <= emax)%Z.

Local Abbreviation emin := (SpecFloat.emin prec emax).
Local Open Scope Z_scope.

Lemma mul_compare_mono_pos (a b c : Z) :
  0 < c -> (a * c ?= b * c) = (a ?= b).
Proof.
  intros Hc. destruct (Z.compare_spec a b) as [-> | Hlt | Hgt].
  - apply Z.compare_refl.
  - apply Z.compare_lt_iff. nia.
  - apply Z.compare_gt_iff. nia.
Qed.

Lemma finite_key_bounds (m : positive) (e : Z) :
  bounded prec emax m e = true ->
  0 < Zpos m * 2 ^ (e - emin) < 2 ^ (emax - emin).
Proof.
  unfold bounded. intros [C B]%andb_prop. apply Z.leb_le in B.
  pose proof (canonical_inv prec emax m e C) as [He [Hd _]].
  pose proof (digits2_pos_bounds m) as [_ Hu].
  assert (Hp : 0 < 2 ^ (e - emin)) by (apply Z.pow_pos_nonneg; lia).
  split; [lia |].
  assert (H1 : 2 ^ Zpos (digits2_pos m) <= 2 ^ prec) by (apply Z.pow_le_mono_r; lia).
  assert (H2 : 2 ^ (e - emin) <= 2 ^ (emax - prec - emin)) by (apply Z.pow_le_mono_r; lia).
  assert (H3 : 2 ^ (emax - emin) = 2 ^ prec * 2 ^ (emax - prec - emin)).
  { rewrite <- Z.pow_add_r by lia. f_equal. lia. }
  rewrite H3. nia.
Qed.

Lemma aligned_key (s : bool) (m : positive) (e ez : Z) :
  emin <= ez -> ez <= e ->
  SFkey prec emax (S754_finite s m e) = aligned s m e ez * 2 ^ (ez - emin).
Proof.
  intros H1 H2. unfold aligned. cbn [SFkey]. rewrite shl_align_fst by lia.
  assert (H3 : 2 ^ (e - emin) = 2 ^ (e - ez) * 2 ^ (ez - emin)).
  { rewrite <- Z.pow_add_r by lia. f_equal. lia. }
  rewrite H3. destruct s; cbn [cond_Zopp]; lia.
Qed.

Lemma SFcompare_key (x y : spec_float) :
  SpecFloat.valid_binary prec emax x = true ->
  SpecFloat.valid_binary prec emax y = true ->
  SFisNaN x = false -> SFisNaN y = false ->
  SFcompare x y = Some (SFkey prec emax x ?= SFkey prec emax y).
Proof.
  assert (Hinf : 0 < 2 ^ (emax - emin)) by (apply Z.pow_pos_nonneg; lia).
  intros Vx Vy Nx Ny.
  destruct x as [sx | sx | | sx mx ex]; try discriminate;
    destruct y as [sy | sy | | sy my ey]; try discriminate;
    cbn [SpecFloat.valid_binary] in Vx, Vy;
    try pose proof (finite_key_bounds mx ex Vx);
    try pose proof (finite_key_bounds my ey Vy).
  1-8: cbn [SFcompare SFkey]; f_equal; symmetry;
       try destruct sx; try destruct sy; cbn [cond_Zopp];
       first [ apply Z.compare_eq_iff; lia
             | apply Z.compare_lt_iff; lia
             | apply Z.compare_gt_iff; lia ].
  unfold bounded in Vx, Vy.
  apply andb_prop in Vx as [Cx _]. apply andb_prop in Vy as [Cy _].
  pose proof (canonical_inv _ _ _ _ Cx) as [Hex _].
  pose proof (canonical_inv _ _ _ _ Cy) as [Hey _].
  rewrite (SFcompare_finite_aligned prec emax Hprec sx sy mx my ex ey Cx Cy).
  rewrite (aligned_key sx mx ex (Z.min ex ey)) by lia.
  rewrite (aligned_key sy my ey (Z.min ex ey)) by lia.
  f_equal. symmetry. apply mul_compare_mono_pos.
  apply Z.pow_pos_nonneg; lia.
Qed.

End SpecFloatKey.

(** *** Order facts on [SFcompare] *)

Lemma SFcompare_antisym (x y : spec_float) :
  SFcompare y x = option_map CompOpp (SFcompare x y).
Proof.
  destruct x as [sx | sx | | sx mx ex], y as [sy | sy | | sy my ey]; cbn;
    try reflexivity; try (destruct sx; reflexivity); try (destruct sy; reflexivity);
    try (destruct sx, sy; reflexivity).
  pose proof (Pos.compare_cont_antisym mx my Eq) as Hm. cbn [CompOpp] in Hm.
  destruct sx, sy; try reflexivity; f_equal;
    rewrite (Z.compare_antisym ex ey), <- Hm; destruct (ex ?= ey)%Z; cbn;
    try reflexivity; destruct (Pos.compare_cont Eq mx my); reflexivity.
Qed.

Lemma SFcompare_Eq_finite (s1 s2 : bool) (m1 m2 : positive) (e1 e2 : Z) :
  SFcompare (S754_finite s1 m1 e1) (S754_finite s2 m2 e2) = Some Eq ->
  s1 = s2 /\ m1 = m2 /\ e1 = e2.
Proof.
  cbn. destruct s1, s2; try discriminate;
    destruct (Z.compare_spec e1 e2) as [-> | |]; try discriminate;
    intros H; injection H as H; repeat split; try reflexivity;
    apply Pos.compare_eq; fold (Pos.compare m1 m2) in H;
    destruct (m1 ?= m2)%positive; try discriminate; reflexivity.
Qed.

Lemma SFcompare_Eq_trans (x y z : spec_float) :
  SFcompare x y = Some Eq -> SFcompare x z = Some Eq -> SFcompare y z = Some Eq.
Proof.
  destruct x as [sx | sx | | sx mx ex], y as [sy | sy | | sy my ey];
    try (cbn; discriminate); try (destruct sx; cbn; discriminate);
    try (destruct sy; cbn; discriminate);
    destruct z as [sz | sz | | sz mz ez];
    try (cbn; discriminate); try (destruct sx; cbn; discriminate);
    try (destruct sz; cbn; discriminate); try (intros; reflexivity).
  - destruct sx, sy, sz; cbn; try discriminate; reflexivity.
  - intros [-> [-> ->]]%SFcompare_Eq_finite H. exact H.
Qed.

(** *** Binary64 numbers: the facts used on JavaScript's [number] *)

Section Binary64Order.

Local Open Scope float_scope.

Lemma Prim2SF_zero : Prim2SF 0 = S754_zero false.
Proof. reflexivity. Qed.

(** [x - y > 0] holds exactly when [y < x]: a difference of two doubles is
    never rounded to zero, and a NaN difference (NaN operands, or two equal
    infinities) is not greater than zero. *)
Lemma sub_positive (x y : float) : (0 <? x - y) = (y <? x).
Proof.
  rewrite !ltb_spec, sub_spec, Prim2SF_zero.
  apply (SFsub_positive prec emax); [reflexivity | apply Prim2SF_valid ..].
Qed.

Lemma sub_negative (x y : float) : (x - y <? 0) = (x <? y).
Proof.
  rewrite !ltb_spec, sub_spec, Prim2SF_zero.
  apply (SFsub_negative prec emax); [reflexivity | apply Prim2SF_valid ..].
Qed.

Lemma eqb_sym (x y : float) : (x =? y) = (y =? x).
Proof.
  rewrite !eqb_spec. unfold SFeqb.
  rewrite (SFcompare_antisym (Prim2SF x) (Prim2SF y)).
  destruct (SFcompare (Prim2SF x) (Prim2SF y)) as [[] |]; reflexivity.
Qed.

Lemma ltb_leb (x y : float) : (x <? y) = true -> (x <=? y) = true.
Proof.
  rewrite ltb_spec, leb_spec. unfold SFltb, SFleb.
  destruct (SFcompare (Prim2SF x) (Prim2SF y)) as [[] |]; congruence.
Qed.

Lemma leb_of_not_ltb (t x y : float) :
  (t <=? x) = true -> (t <=? y) = true -> (x <? y) = false -> (y <=? x) = true.
Proof.
  rewrite ltb_spec, !leb_spec. unfold SFltb, SFleb.
  rewrite (SFcompare_antisym (Prim2SF x) (Prim2SF y)).
  destruct (Prim2SF t), (Prim2SF x) as [sx | sx | | sx mx ex];
    try discriminate; destruct (Prim2SF y) as [sy | sy | | sy my ey];
    try discriminate; intros _ _;
    match goal with |- context [SFcompare ?a ?b] =>
      assert (Hc : SFcompare a b <> None)
        by (cbn; repeat match goal with |- context [if ?c then _ else _] => destruct c end;
            discriminate);
      destruct (SFcompare a b) as [[] |]; cbn; congruence
    end.
Qed.

Lemma eqb_not_ltb (s x y : float) :
  (s =? x) = true -> (s =? y) = true -> (x <? y) = false.
Proof.
  rewrite !eqb_spec, ltb_spec. unfold SFeqb, SFltb. intros Hx Hy.
  rewrite (SFcompare_Eq_trans (Prim2SF s) (Prim2SF x) (Prim2SF y)); [reflexivity | |].
  - destruct (SFcompare (Prim2SF s) (Prim2SF x)) as [[] |]; congruence.
  - destruct (SFcompare (Prim2SF s) (Prim2SF y)) as [[] |]; congruence.
Qed.

Lemma SFleb_not_nan (x y : spec_float) :
  SFleb x y = true -> SFisNaN x = false /\ SFisNaN y = false.
Proof.
  destruct x as [sx | sx | | sx mx ex], y as [sy | sy | | sy my ey];
    try (split; reflexivity); try discriminate;
    try (destruct sx; discriminate).
Qed.

Lemma leb_trans (x y z : float) :
  (x <=? y) = true -> (y <=? z) = true -> (x <=? z) = true.
Proof.
  rewrite !leb_spec. intros Hxy Hyz.
  pose proof (SFleb_not_nan _ _ Hxy) as [Nx Ny].
  pose proof (SFleb_not_nan _ _ Hyz) as [_ Nz].
  assert (K : forall a b, SFisNaN (Prim2SF a) = false -> SFisNaN (Prim2SF b) = false ->
              SFcompare (Prim2SF a) (Prim2SF b) =
              Some (SFkey prec emax (Prim2SF a) ?= SFkey prec emax (Prim2SF b))%Z).
  { intros a b Na Nb.
    apply SFcompare_key; auto using Prim2SF_valid; reflexivity || (cbv; discriminate). }
  unfold SFleb in *.
  rewrite (K x y Nx Ny) in Hxy. rewrite (K y z Ny Nz) in Hyz. rewrite (K x z Nx Nz).
  destruct (Z.compare_spec (SFkey prec emax (Prim2SF x)) (SFkey prec emax (Prim2SF y)));
    try discriminate;
    destruct (Z.compare_spec (SFkey prec emax (Prim2SF y)) (SFkey prec emax (Prim2SF z)));
    try discriminate;
    destruct (Z.compare_spec (SFkey prec emax (Prim2SF x)) (SFkey prec emax (Prim2SF z)));
    try reflexivity; lia.
Qed.

End Binary64Order.

(* ----------------------------------------------------------------- *)
(** ** Cosine similarity: the loop and the formula *)

Section CosineFacts.

Local Open Scope float_scope.

Lemma at_index_middle (a1 a2 : list float) (x : float) :
  at_index (a1 ++ x :: a2) (length a1) = x.
Proof. unfold at_index. apply nth_middle. Qed.

(** The single indexed loop computes the three sums: [k] components have
    been consumed, [a2] and [b2] remain. *)
Lemma cosineLoop_sums (a2 : list float) :
  forall (a1 b1 b2 : list float) (acc : Sums),
    length a1 = length b1 -> length a2 = length b2 ->
    fold_left (cosineStep (a1 ++ a2) (b1 ++ b2))
      (seq (length a1) (length a2)) acc =
    {| dotProduct :=
         fold_left (fun sum xy => sum + fst xy * snd xy) (combine a2 b2)
           (dotProduct acc);
       normA := fold_left (fun sum x => sum + x * x) a2 (normA acc);
       normB := fold_left (fun sum x => sum + x * x) b2 (normB acc) |}.
Proof.
  induction a2 as [| x a2 IH]; intros a1 b1 b2 acc H1 H2.
  - destruct b2; [| discriminate]. destruct acc; reflexivity.
  - destruct b2 as [| y b2]; [discriminate |].
    cbn [length seq fold_left combine].
    assert (Hstep : cosineStep (a1 ++ x :: a2) (b1 ++ y :: b2) acc (length a1) =
                    {| dotProduct := dotProduct acc + x * y;
                       normA := normA acc + x * x;
                       normB := normB acc + y * y |}).
    { unfold cosineStep. rewrite at_index_middle, H1, at_index_middle. reflexivity. }
    rewrite Hstep.
    assert (Hlen : length (a1 ++ [x]) = length (b1 ++ [y]))
      by (rewrite !length_app; cbn [length]; lia).
    assert (Hlen2 : length a2 = length b2) by (cbn [length] in H2; lia).
    replace (S (length a1)) with (length (a1 ++ [x]))
      by (rewrite length_app; cbn [length]; lia).
    replace (a1 ++ x :: a2) with ((a1 ++ [x]) ++ a2)
      by (rewrite <- app_assoc; reflexivity).
    replace (b1 ++ y :: b2) with ((b1 ++ [y]) ++ b2)
      by (rewrite <- app_assoc; reflexivity).
    rewrite (IH (a1 ++ [x]) (b1 ++ [y]) b2 _ Hlen Hlen2). reflexivity.
Qed.

Lemma cosineSimilarity_equal_length (vecA vecB : list float) :
  length vecA = length vecB ->
  cosineSimilarity vecA vecB = Normal (similarityOf vecA vecB).
Proof.
  intros Hlen. unfold cosineSimilarity.
  rewrite (proj2 (Nat.eqb_eq _ _) Hlen). cbn [negb].
  rewrite (cosineLoop_sums vecA [] [] vecB _ eq_refl Hlen).
  cbn [dotProduct normA normB].
  unfold similarityOf, euclideanNorm, sumOfSquares, dot.
  destruct ((sqrt _ =? 0) || (sqrt _ =? 0)); reflexivity.
Qed.

Lemma cosineSimilarity_unequal_length (vecA vecB : list float) :
  length vecA <> length vecB ->
  cosineSimilarity vecA vecB = Throw lengthError.
Proof.
  intros Hlen. unfold cosineSimilarity.
  rewrite (proj2 (Nat.eqb_neq _ _) Hlen). reflexivity.
Qed.

Lemma sumOfSquares_zeroVector (v : list float) :
  zeroVector v -> sumOfSquares v = 0.
Proof.
  unfold sumOfSquares. induction 1 as [| x v [-> | ->] _ IH]; cbn [fold_left].
  - reflexivity.
  - exact IH.
  - exact IH.
Qed.

Lemma euclideanNorm_zeroVector (v : list float) :
  zeroVector v -> euclideanNorm v = 0.
Proof.
  intros H. unfold euclideanNorm. rewrite (sumOfSquares_zeroVector v H). reflexivity.
Qed.

End CosineFacts.

(* ----------------------------------------------------------------- *)
(** ** Arrays: [slice] and [sort] *)

Section SliceFacts.

Context {A : Type}.

Lemma slice_from_0 (l : list A) (end_ : Z) :
  JSArray.slice l 0 end_ =
  firstn (Z.to_nat (JSArray.relativeIndex (Z.of_nat (length l)) end_)) l.
Proof.
  unfold JSArray.slice.
  assert (H0 : JSArray.relativeIndex (Z.of_nat (length l)) 0 = 0%Z)
    by (unfold JSArray.relativeIndex; cbn; lia).
  rewrite H0. cbn [Z.to_nat skipn]. f_equal.
  unfold JSArray.relativeIndex. destruct (end_ <? 0)%Z; lia.
Qed.

Lemma slice_from_0_length (l : list A) (end_ : Z) :
  (0 <= end_)%Z -> (Z.of_nat (length (JSArray.slice l 0 end_)) <= end_)%Z.
Proof.
  intros H. rewrite slice_from_0, length_firstn.
  unfold JSArray.relativeIndex.
  destruct (Z.ltb_spec end_ 0); lia.
Qed.

Lemma slice_from_0_all (l : list A) (end_ : Z) :
  (Z.of_nat (length l) <= end_)%Z -> JSArray.slice l 0 end_ = l.
Proof.
  intros H. rewrite slice_from_0. apply firstn_all2.
  unfold JSArray.relativeIndex. destruct (Z.ltb_spec end_ 0); lia.
Qed.

(** [slice(0, end)] keeps the first [end] elements, and for a negative
    [end] all but the last [- end]. *)
Lemma slice_from_0_count (l : list A) (end_ : Z) :
  JSArray.slice l 0 end_ =
  firstn (Z.to_nat (if (end_ <? 0)%Z
                    then Z.max (Z.of_nat (length l) + end_) 0
                    else end_)) l.
Proof.
  rewrite slice_from_0. unfold JSArray.relativeIndex.
  destruct (Z.ltb_spec end_ 0) as [Hneg | Hpos]; [reflexivity |].
  destruct (Z.le_gt_cases end_ (Z.of_nat (length l))) as [Hle | Hgt].
  - now rewrite Z.min_l.
  - rewrite Z.min_r by lia. rewrite Nat2Z.id.
    rewrite firstn_all. symmetry. apply firstn_all2. lia.
Qed.

Lemma Forall_firstn (P : A -> Prop) (n : nat) (l : list A) :
  Forall P l -> Forall P (firstn n l).
Proof.
  intros H. rewrite <- (firstn_skipn n l) in H. now apply Forall_app in H.
Qed.

Lemma Sorted_firstn (R : A -> A -> Prop) (n : nat) :
  forall l, Sorted R l -> Sorted R (firstn n l).
Proof.
  induction n as [| n IH]; intros l H; [constructor |].
  destruct l as [| x l]; [constructor |].
  cbn [firstn]. inversion H as [| ? ? Hs Hh]; subst. constructor.
  - now apply IH.
  - destruct l as [| y l]; [destruct n; constructor |].
    destruct n; cbn [firstn]; constructor. now inversion Hh.
Qed.

Lemma StronglySorted_firstn (R : A -> A -> Prop) (n : nat) :
  forall l, StronglySorted R l -> StronglySorted R (firstn n l).
Proof.
  induction n as [| n IH]; intros l H; [constructor |].
  destruct l as [| x l]; [constructor |].
  cbn [firstn]. inversion H as [| ? ? Hs Hh]; subst. constructor.
  - now apply IH.
  - now apply Forall_firstn.
Qed.

Lemma filter_firstn_prefix (p : A -> bool) (n : nat) (l : list A) :
  exists rest, filter p l = filter p (firstn n l) ++ rest.
Proof.
  exists (filter p (skipn n l)).
  rewrite <- filter_app, firstn_skipn. reflexivity.
Qed.

End SliceFacts.

Section SortFacts.

Context {A : Type}.
Variable comparefn : A -> A -> float.

Lemma sortInsert_perm (x : A) (l : list A) :
  Permutation (JSArray.sortInsert comparefn x l) (x :: l).
Proof.
  induction l as [| y l IH]; cbn [JSArray.sortInsert]; [reflexivity |].
  destruct (0 <? comparefn x y)%float; [| reflexivity].
  rewrite IH. apply perm_swap.
Qed.

Lemma sort_perm (l : list A) : Permutation (JSArray.sort comparefn l) l.
Proof.
  induction l as [| x l IH]; cbn [JSArray.sort fold_right]; [reflexivity |].
  fold (JSArray.sort comparefn l). rewrite sortInsert_perm. now constructor.
Qed.

Lemma sort_Forall (P : A -> Prop) (l : list A) :
  Forall P l -> Forall P (JSArray.sort comparefn l).
Proof.
  intros H. rewrite Forall_forall in *. intros x Hx. apply H.
  apply (Permutation_in _ (sort_perm l) Hx).
Qed.

Lemma sort_length (l : list A) : length (JSArray.sort comparefn l) = length l.
Proof. apply Permutation_length, sort_perm. Qed.

End SortFacts.

(* ----------------------------------------------------------------- *)
(** ** The comparator of the search and the sorted results *)

Section CompareFnFacts.

Local Open Scope float_scope.

Lemma compareFn_positive (a b : SearchResult.t) :
  (0 <? compareFn a b) = (SearchResult.similarity a <? SearchResult.similarity b).
Proof. apply sub_positive. Qed.

Lemma compareFn_negative (a b : SearchResult.t) :
  (compareFn a b <? 0) = (SearchResult.similarity b <? SearchResult.similarity a).
Proof. apply sub_negative. Qed.

(** The comparator is consistent: it puts [a] after [b] exactly when it
    puts [b] before [a]; so all stable sorts agree on its arrays. *)
Lemma compareFn_consistent (a b : SearchResult.t) :
  (0 <? compareFn a b) = (compareFn b a <? 0).
Proof. now rewrite compareFn_positive, compareFn_negative. Qed.

Variable threshold : float.

Local Abbreviation reaches := (reachesThreshold threshold).

Lemma geSimilarity_trans (a b c : SearchResult.t) :
  geSimilarity a b -> geSimilarity b c -> geSimilarity a c.
Proof. unfold geSimilarity. intros H1 H2. exact (leb_trans _ _ _ H2 H1). Qed.

Lemma sortInsert_sorted (x : SearchResult.t) (l : list SearchResult.t) :
  reaches x -> Forall reaches l ->
  StronglySorted geSimilarity l ->
  StronglySorted geSimilarity (JSArray.sortInsert compareFn x l).
Proof.
  intros Hx Hl Hs. induction Hs as [| y l Hs IH Hy]; cbn [JSArray.sortInsert].
  - repeat constructor.
  - inversion Hl as [| ? ? Hry Hrl]; subst.
    rewrite compareFn_positive.
    destruct (SearchResult.similarity x <? SearchResult.similarity y) eqn:E.
    + constructor; [now apply IH |].
      rewrite Forall_forall. intros z Hz.
      apply (Permutation_in _ (sortInsert_perm compareFn x l)) in Hz.
      destruct Hz as [<- | Hz].
      * now apply ltb_leb.
      * rewrite Forall_forall in Hy. now apply Hy.
    + assert (Hxy : geSimilarity x y).
      { unfold geSimilarity. now apply (leb_of_not_ltb threshold). }
      constructor; [now constructor |].
      constructor; [exact Hxy |].
      rewrite Forall_forall in *. intros z Hz.
      apply (geSimilarity_trans _ _ _ Hxy). now apply Hy.
Qed.

Lemma sort_sorted (l : list SearchResult.t) :
  Forall reaches l -> StronglySorted geSimilarity (JSArray.sort compareFn l).
Proof.
  induction 1 as [| x l Hx Hl IH]; cbn [JSArray.sort fold_right]; [constructor |].
  fold (JSArray.sort compareFn l).
  apply sortInsert_sorted; auto. now apply sort_Forall.
Qed.

(** Stability: the results of a given similarity keep their order. *)
Lemma sortInsert_stable (s : float) (x : SearchResult.t) (l : list SearchResult.t) :
  filter (hasSimilarity s) (JSArray.sortInsert compareFn x l) =
  filter (hasSimilarity s) (x :: l).
Proof.
  induction l as [| y l IH]; cbn [JSArray.sortInsert]; [reflexivity |].
  rewrite compareFn_positive.
  destruct (SearchResult.similarity x <? SearchResult.similarity y) eqn:E;
    [| reflexivity].
  cbn [filter] in *. rewrite IH.
  destruct (hasSimilarity s x) eqn:Ex, (hasSimilarity s y) eqn:Ey; try reflexivity.
  unfold hasSimilarity in Ex, Ey. rewrite eqb_sym in Ex, Ey.
  rewrite (eqb_not_ltb _ _ _ Ex Ey) in E. discriminate.
Qed.

Lemma sort_stable (s : float) (l : list SearchResult.t) :
  filter (hasSimilarity s) (JSArray.sort compareFn l) = filter (hasSimilarity s) l.
Proof.
  induction l as [| x l IH]; cbn [JSArray.sort fold_right]; [reflexivity |].
  fold (JSArray.sort compareFn l). rewrite sortInsert_stable.
  cbn [filter]. now rewrite IH.
Qed.

End CompareFnFacts.

(* ----------------------------------------------------------------- *)
(** ** The scan of the user's documents *)

Section ScanFacts.

Variable queryEmbedding : list float.
Variable threshold : float.

Local Abbreviation matches := (fun e : list float => length e = length queryEmbedding).
Local Abbreviation mismatches := (fun e : list float => length e <> length queryEmbedding).
Local Abbreviation keep :=
  (fun r => (threshold <=? SearchResult.similarity r)%float).

Lemma chunkLoop_match (document : IDocument.t) (pending : list (list float)) :
  forall (i : nat) (results : list SearchResult.t),
    Forall matches pending ->
    chunkLoop queryEmbedding threshold document i pending results =
    Normal (results ++
            filter keep (map (resultOf queryEmbedding)
                           (pairsFrom document i pending))).
Proof.
  induction pending as [| e pending IH]; intros i results H; cbn [chunkLoop].
  - cbn. now rewrite app_nil_r.
  - inversion H as [| ? ? He Hp]; subst.
    rewrite (cosineSimilarity_equal_length queryEmbedding e (eq_sym He)).
    cbn [bind]. rewrite (IH (S i) _ Hp).
    unfold pairsFrom.
    cbn [length seq combine map filter resultOf fst snd SearchResult.similarity].
    destruct (threshold <=? similarityOf queryEmbedding e)%float.
    + unfold JSArray.push. now rewrite <- app_assoc.
    + reflexivity.
Qed.

Lemma chunkLoop_mismatch (document : IDocument.t) (pending : list (list float)) :
  forall (i : nat) (results : list SearchResult.t),
    Exists mismatches pending ->
    chunkLoop queryEmbedding threshold document i pending results =
    Throw lengthError.
Proof.
  induction pending as [| e pending IH]; intros i results H; cbn [chunkLoop].
  - inversion H.
  - destruct (Nat.eq_dec (length queryEmbedding) (length e)) as [He | He].
    + rewrite (cosineSimilarity_equal_length queryEmbedding e He). cbn [bind].
      apply IH. inversion H as [? ? Hm | ? ? Hm]; subst; [congruence | exact Hm].
    + now rewrite (cosineSimilarity_unequal_length queryEmbedding e He).
Qed.

Lemma keptPairs_cons (d : IDocument.t) (documents : list IDocument.t) :
  keptPairs queryEmbedding threshold (d :: documents) =
  filter keep (map (resultOf queryEmbedding) (pairsOf d)) ++
  keptPairs queryEmbedding threshold documents.
Proof.
  unfold keptPairs, scanOrder. cbn [flat_map].
  now rewrite map_app, filter_app.
Qed.

Lemma documentLoop_match (documents : list IDocument.t) :
  forall results : list SearchResult.t,
    dimensionsMatch queryEmbedding documents ->
    documentLoop queryEmbedding threshold documents results =
    Normal (results ++ keptPairs queryEmbedding threshold documents).
Proof.
  induction documents as [| d documents IH]; intros results H; cbn [documentLoop].
  - cbn. now rewrite app_nil_r.
  - inversion H as [| ? ? Hd Hds]; subst.
    rewrite keptPairs_cons. unfold pairsOf.
    destruct (IDocument.embeddings d) as [| e es] eqn:E.
    + cbn [bind]. rewrite (IH _ Hds). reflexivity.
    + rewrite (chunkLoop_match d (e :: es) 0 results Hd). cbn [bind].
      rewrite (IH _ Hds). now rewrite <- app_assoc.
Qed.

Lemma documentLoop_mismatch (documents : list IDocument.t) :
  forall results : list SearchResult.t,
    Exists (fun d => Exists mismatches (IDocument.embeddings d)) documents ->
    documentLoop queryEmbedding threshold documents results = Throw lengthError.
Proof.
  induction documents as [| d documents IH]; intros results H; cbn [documentLoop].
  - inversion H.
  - destruct (IDocument.embeddings d) as [| e es] eqn:E.
    + cbn [bind]. apply IH.
      inversion H as [? ? Hm | ? ? Hm]; subst; [| exact Hm].
      rewrite E in Hm. inversion Hm.
    + destruct (Forall_Exists_dec matches
                  (fun e => Nat.eq_dec (length e) (length queryEmbedding))
                  (e :: es)) as [Hall | Hex].
      * rewrite (chunkLoop_match d (e :: es) 0 results Hall). cbn [bind].
        apply IH. inversion H as [? ? Hm | ? ? Hm]; subst; [| exact Hm].
        rewrite E in Hm. exfalso.
        apply Exists_exists in Hm as [x [Hin Hx]].
        rewrite Forall_forall in Hall. exact (Hx (Hall x Hin)).
      * now rewrite (chunkLoop_mismatch d (e :: es) 0 results Hex).
Qed.

Lemma keptPairs_reach (documents : list IDocument.t) :
  Forall (reachesThreshold threshold)
    (keptPairs queryEmbedding threshold documents).
Proof.
  unfold keptPairs. rewrite Forall_forall. intros r Hr.
  now apply filter_In in Hr as [_ Hr].
Qed.

End ScanFacts.

Lemma search_match (queryEmbedding : list float) (userId : JSString.t)
  (limit : Z) (threshold : float) (store : Store) :
  dimensionsMatch queryEmbedding (Document_find userId store) ->
  searchSimilarDocuments queryEmbedding userId limit threshold store =
  Normal (JSArray.slice
            (JSArray.sort compareFn
               (keptPairs queryEmbedding threshold (Document_find userId store)))
            0 limit).
Proof.
  intros H. unfold searchSimilarDocuments.
  now rewrite (documentLoop_match queryEmbedding threshold _ [] H).
Qed.

Lemma search_mismatch (queryEmbedding : list float) (userId : JSString.t)
  (limit : Z) (threshold : float) (store : Store) :
  Exists (fun d => Exists (fun e => length e <> length queryEmbedding)
                     (IDocument.embeddings d))
    (Document_find userId store) ->
  searchSimilarDocuments queryEmbedding userId limit threshold store =
  Throw lengthError.
Proof.
  intros H. unfold searchSimilarDocuments.
  now rewrite (documentLoop_mismatch queryEmbedding threshold _ [] H).
Qed.

(* ================================================================= *)
(** * Part III: the claims *)

(* ----------------------------------------------------------------- *)
(** ** Cosine similarity *)

(** C5: for vectors of equal length, [cosineSimilarity] returns exactly [0]
    (a value, not an exception and not NaN) whenever the Euclidean norm of
    either vector is [0], in particular when either is a zero vector, and
    otherwise the dot product divided by the product of the two norms. *)
Theorem cosineSimilarity_zero_norm_or_quotient (vecA vecB : list float) :
  length vecA = length vecB ->
  (((euclideanNorm vecA =? 0) || (euclideanNorm vecB =? 0))%float = true ->
   cosineSimilarity vecA vecB = Normal 0%float) /\
  (((euclideanNorm vecA =? 0) || (euclideanNorm vecB =? 0))%float = false ->
   cosineSimilarity vecA vecB =
   Normal (dot vecA vecB / (euclideanNorm vecA * euclideanNorm vecB))%float) /\
  (zeroVector vecA \/ zeroVector vecB ->
   cosineSimilarity vecA vecB = Normal 0%float).
Proof.
  intros Hlen. rewrite (cosineSimilarity_equal_length vecA vecB Hlen).
  unfold similarityOf. repeat split.
  - now intros ->.
  - now intros ->.
  - intros [Hz | Hz]; rewrite (euclideanNorm_zeroVector _ Hz).
    + reflexivity.
    + now rewrite orb_true_r.
Qed.

Lemma cosineSimilarity_zero_norm_or_quotient_witness :
  cosineSimilarity [0; -0]%float [3; 4]%float = Normal 0%float /\
  cosineSimilarity [3; 4]%float [-3; -4]%float = Normal (-1)%float.
Proof.
  split.
  - apply (cosineSimilarity_zero_norm_or_quotient [0; -0]%float [3; 4]%float eq_refl).
    left. constructor; [left; reflexivity |].
    constructor; [right; reflexivity | constructor].
  - apply (cosineSimilarity_zero_norm_or_quotient [3; 4]%float [-3; -4]%float eq_refl).
    reflexivity.
Defined.

(** C10: in [cosineSimilarity] the length check comes before the zero-norm
    check: vectors of unequal length make it throw, all-zero vectors
    included, and a search whose query meets a candidate of another length
    throws as well instead of counting a similarity of [0]. *)
Theorem length_check_precedes_zero_norm (vecA vecB : list float) :
  length vecA <> length vecB ->
  cosineSimilarity vecA vecB = Throw lengthError /\
  forall (userId : JSString.t) (limit : Z) (threshold : float) (store : Store)
         (d : IDocument.t),
    In d (Document_find userId store) -> In vecB (IDocument.embeddings d) ->
    searchSimilarDocuments vecA userId limit threshold store = Throw lengthError.
Proof.
  intros Hlen. split.
  - now apply cosineSimilarity_unequal_length.
  - intros userId limit threshold store d Hd Hb. apply search_mismatch.
    apply Exists_exists. exists d. split; [exact Hd |].
    apply Exists_exists. exists vecB. split; [exact Hb | congruence].
Qed.

Lemma length_check_precedes_zero_norm_witness :
  zeroVector [0; 0]%float /\ zeroVector [0; 0; 0]%float /\
  cosineSimilarity [0; 0]%float [0; 0; 0]%float = Throw lengthError /\
  searchSimilarDocuments [0; 0]%float Sample.alice 5 0.5%float
    Sample.malformedStore = Throw lengthError.
Proof.
  assert (Hlen : length [0; 0]%float <> length [0; 0; 0]%float) by (cbn; lia).
  destruct (length_check_precedes_zero_norm [0; 0]%float [0; 0; 0]%float Hlen)
    as [Hcos Hsearch].
  split; [| split; [| split]].
  - repeat (constructor; [left; reflexivity |]). constructor.
  - repeat (constructor; [left; reflexivity |]). constructor.
  - exact Hcos.
  - apply (Hsearch Sample.alice 5%Z 0.5%float Sample.malformedStore
             (Sample.document "d1" "alice@example.org"
                [[1; 0]; [0; 0; 0]]%float)).
    + left. reflexivity.
    + right. left. reflexivity.
Defined.

(* ----------------------------------------------------------------- *)
(** ** Search: dimension mismatch *)

(** C3: if any candidate embedding of the user's documents has a length
    other than the query's, the search throws the length error of
    [cosineSimilarity]: the whole query is aborted and no result is
    returned, whatever limit and threshold; the results pushed before the
    mismatch was met are lost with it (the loops throw from any accumulated
    [partial] results), and no embedding is padded, truncated or skipped. *)
Theorem search_aborts_on_dimension_mismatch (queryEmbedding : list float)
  (userId : JSString.t) (limit : Z) (threshold : float) (store : Store) :
  Exists (fun d => Exists (fun e => length e <> length queryEmbedding)
                     (IDocument.embeddings d))
    (Document_find userId store) ->
  searchSimilarDocuments queryEmbedding userId limit threshold store
  = Throw lengthError /\
  forall partial : list SearchResult.t,
    documentLoop queryEmbedding threshold (Document_find userId store) partial
    = Throw lengthError.
Proof.
  intros Hbad. split.
  - unfold searchSimilarDocuments.
    now rewrite (documentLoop_mismatch queryEmbedding threshold _ [] Hbad).
  - intros partial. now apply documentLoop_mismatch.
Qed.

Lemma search_aborts_on_dimension_mismatch_witness :
  searchSimilarDocuments [1; 0]%float Sample.alice 5 0.5%float
    Sample.malformedStore = Throw lengthError.
Proof.
  apply (search_aborts_on_dimension_mismatch [1; 0]%float Sample.alice 5
           0.5%float Sample.malformedStore).
  apply Exists_cons_hd. apply Exists_cons_tl. apply Exists_cons_hd.
  cbn. lia.
Defined.

(* ----------------------------------------------------------------- *)
(** ** Search: limit, threshold, order *)

(** C2, as stated, fails for a negative limit: [slice(0, -1)] drops the
    last result only, so two matching chunks and [limit = -1] give one
    result, which is more than the limit. *)
Lemma search_negative_limit_exceeds_limit :
  dimensionsMatch [1; 0]%float (Document_find Sample.alice Sample.store) /\
  exists out,
    searchSimilarDocuments [1; 0]%float Sample.alice (-1) 0.5%float Sample.store
    = Normal out /\
    ~ (Z.of_nat (length out) <= -1)%Z.
Proof.
  split.
  - cbn. repeat (constructor; [repeat (constructor; [reflexivity |]); constructor |]).
    constructor.
  - eexists. split; [reflexivity |]. cbn. lia.
Qed.

(** C2 (amended): for every limit that is not negative, whenever all
    candidate embeddings have the length of the query, the search returns
    at most [limit] results, each of similarity at least the threshold, in
    non-increasing order of similarity. *)
Theorem search_limit_threshold_sorted (queryEmbedding : list float)
  (userId : JSString.t) (limit : Z) (threshold : float) (store : Store) :
  (0 <= limit)%Z ->
  dimensionsMatch queryEmbedding (Document_find userId store) ->
  exists out,
    searchSimilarDocuments queryEmbedding userId limit threshold store
    = Normal out /\
    (Z.of_nat (length out) <= limit)%Z /\
    Forall (reachesThreshold threshold) out /\
    StronglySorted geSimilarity out.
Proof.
  intros Hlimit Hdim. eexists. split; [now apply search_match |].
  pose proof (keptPairs_reach queryEmbedding threshold
                (Document_find userId store)) as Hreach.
  split; [| split].
  - now apply slice_from_0_length.
  - rewrite slice_from_0. apply Forall_firstn. now apply sort_Forall.
  - rewrite slice_from_0. apply StronglySorted_firstn.
    now apply (sort_sorted threshold).
Qed.

Lemma search_limit_threshold_sorted_witness :
  exists out,
    searchSimilarDocuments [1; 0]%float Sample.alice 2 0.5%float Sample.store
    = Normal out /\
    (Z.of_nat (length out) <= 2)%Z /\
    Forall (reachesThreshold 0.5%float) out /\
    StronglySorted geSimilarity out.
Proof.
  apply search_limit_threshold_sorted; [lia |].
  cbn. repeat (constructor; [repeat (constructor; [reflexivity |]); constructor |]).
  constructor.
Defined.

(** C7: the sort of the search is a stable sort with the similarity as
    only key.  Whenever all candidate embeddings have the length of the
    query, the results are the first ones of a sequence [sorted] that
    holds exactly the kept pairs (those whose similarity reaches the
    threshold), in non-increasing order of similarity, and in which, for
    every similarity [s], the pairs of similarity [s] stand in scan order
    (documents in retrieval order, chunk indices ascending within a
    document).  The number of results taken is [limit], or, for a negative
    [limit], the number of kept pairs less [- limit].  Hence the returned
    results of similarity [s] are the first kept pairs of similarity [s],
    in scan order, and all of them when the limit does not cut the
    sequence. *)
Theorem search_ties_keep_scan_order (queryEmbedding : list float)
  (userId : JSString.t) (limit : Z) (threshold : float) (store : Store) :
  dimensionsMatch queryEmbedding (Document_find userId store) ->
  exists sorted out,
    searchSimilarDocuments queryEmbedding userId limit threshold store
    = Normal out /\
    Permutation sorted
      (keptPairs queryEmbedding threshold (Document_find userId store)) /\
    StronglySorted geSimilarity sorted /\
    (forall s : float,
        filter (hasSimilarity s) sorted
        = filter (hasSimilarity s)
            (keptPairs queryEmbedding threshold (Document_find userId store))) /\
    out = firstn
            (Z.to_nat (if (limit <? 0)%Z
                       then Z.max (Z.of_nat (length sorted) + limit) 0
                       else limit))
            sorted /\
    (forall s : float,
     exists rest,
       filter (hasSimilarity s)
         (keptPairs queryEmbedding threshold (Document_find userId store))
       = filter (hasSimilarity s) out ++ rest) /\
    ((Z.of_nat
        (length (keptPairs queryEmbedding threshold
                   (Document_find userId store))) <= limit)%Z ->
     forall s : float,
       filter (hasSimilarity s) out
       = filter (hasSimilarity s)
           (keptPairs queryEmbedding threshold (Document_find userId store))).
Proof.
  intros Hdim.
  exists (JSArray.sort compareFn
            (keptPairs queryEmbedding threshold (Document_find userId store))).
  eexists. split; [now apply search_match |].
  split; [apply sort_perm |].
  split; [apply (sort_sorted threshold), keptPairs_reach |].
  split; [intros s; apply sort_stable |].
  split; [apply slice_from_0_count |].
  split.
  - intros s. rewrite slice_from_0, <- (sort_stable s).
    apply filter_firstn_prefix.
  - intros Hall s. rewrite slice_from_0_all; [apply sort_stable |].
    now rewrite sort_length.
Qed.

Lemma search_ties_keep_scan_order_witness :
  exists sorted out,
    searchSimilarDocuments [1; 0]%float Sample.alice 2 0.5%float Sample.store
    = Normal out /\
    Permutation sorted
      (keptPairs [1; 0]%float 0.5%float
         (Document_find Sample.alice Sample.store)) /\
    StronglySorted geSimilarity sorted /\
    (forall s : float,
        filter (hasSimilarity s) sorted
        = filter (hasSimilarity s)
            (keptPairs [1; 0]%float 0.5%float
               (Document_find Sample.alice Sample.store))) /\
    out = firstn 2 sorted /\
    map (fun r => (SearchResult.documentId r, SearchResult.chunkIndex r)) out
    = [(JSString.lit "d1", 0); (JSString.lit "d3", 0)].
Proof.
  destruct (search_ties_keep_scan_order [1; 0]%float Sample.alice 2 0.5%float
              Sample.store)
    as [sorted [out [Hout [Hperm [Hsorted [Hstable [Hfirst _]]]]]]].
  - cbn. repeat (constructor; [repeat (constructor; [reflexivity |]); constructor |]).
    constructor.
  - exists sorted, out.
    split; [exact Hout |]. split; [exact Hperm |]. split; [exact Hsorted |].
    split; [exact Hstable |]. split; [exact Hfirst |].
    assert (H : searchSimilarDocuments [1; 0]%float Sample.alice 2 0.5%float
                  Sample.store
                = Normal (JSArray.slice
                            (JSArray.sort compareFn
                               (keptPairs [1; 0]%float 0.5%float
                                  (Document_find Sample.alice Sample.store)))
                            0 2)) by reflexivity.
    rewrite Hout in H. injection H as ->. vm_compute. reflexivity.
Defined.

(* ----------------------------------------------------------------- *)
(** ** Search: scoping to the user *)

Lemma JSString_eqb_eq (a b : JSString.t) : JSString.eqb a b = true <-> a = b.
Proof.
  revert b. induction a as [| x a IH]; intros [| y b]; cbn [JSString.eqb];
    try (split; [discriminate | discriminate]); try (split; reflexivity).
  rewrite andb_true_iff, N.eqb_eq, IH. split.
  - now intros [-> ->].
  - intros H. injection H as -> ->. now split.
Qed.

Lemma Document_find_In (userId : JSString.t) (store : Store) (d : IDocument.t) :
  In d (Document_find userId store) <-> In d store /\ IDocument.userId d = userId.
Proof.
  unfold Document_find. now rewrite filter_In, JSString_eqb_eq.
Qed.

Lemma Document_find_foreign (userId : JSString.t) (foreign : list IDocument.t) :
  Forall (fun d => IDocument.userId d <> userId) foreign ->
  Document_find userId foreign = [].
Proof.
  unfold Document_find. induction 1 as [| d l Hd _ IH]; cbn [filter]; [reflexivity |].
  destruct (JSString.eqb (IDocument.userId d) userId) eqn:E; [| exact IH].
  apply JSString_eqb_eq in E. contradiction.
Qed.

Lemma dimensions_dec (queryEmbedding : list float) (documents : list IDocument.t) :
  {dimensionsMatch queryEmbedding documents} +
  {Exists (fun d => Exists (fun e => length e <> length queryEmbedding)
                      (IDocument.embeddings d)) documents}.
Proof.
  unfold dimensionsMatch.
  induction documents as [| d documents [IH | IH]].
  - left. constructor.
  - destruct (Forall_Exists_dec (fun e => length e = length queryEmbedding)
                (fun e => Nat.eq_dec (length e) (length queryEmbedding))
                (IDocument.embeddings d)) as [H | H].
    + left. now constructor.
    + right. now apply Exists_cons_hd.
  - right. now apply Exists_cons_tl.
Qed.

Lemma pairsFrom_In (d d' : IDocument.t) (i j : nat) (e : list float)
  (pending : list (list float)) :
  In (d', j, e) (pairsFrom d i pending) ->
  d' = d /\ i <= j < i + length pending.
Proof.
  unfold pairsFrom. intros H. apply in_map_iff in H as [[k e'] [Heq Hin]].
  cbn [fst snd] in Heq. injection Heq as <- <- <-.
  apply in_combine_l in Hin. apply in_seq in Hin. split; [reflexivity | lia].
Qed.

Lemma keptPairs_owned (queryEmbedding : list float) (threshold : float)
  (userId : JSString.t) (store : Store) (r : SearchResult.t) :
  In r (keptPairs queryEmbedding threshold (Document_find userId store)) ->
  ownedResult userId store r.
Proof.
  unfold keptPairs, scanOrder. intros H.
  apply filter_In in H as [H _].
  apply in_map_iff in H as [[[d j] e] [<- Hin]].
  apply in_flat_map in Hin as [d0 [Hd0 Hin]].
  apply pairsFrom_In in Hin as [-> Hj].
  apply Document_find_In in Hd0 as [Hstore Howner].
  exists d0. cbn. repeat split; auto. lia.
Qed.

(** C4: the results of a search for user A are a function of A's own
    documents only.  Documents of other users, placed anywhere in the
    collection and whatever their embeddings, change nothing to the
    outcome, and every returned result is a chunk of a document that A
    owns. *)
Theorem search_scoped_to_user (queryEmbedding : list float)
  (userId : JSString.t) (limit : Z) (threshold : float)
  (before foreign after : list IDocument.t) :
  Forall (fun d => IDocument.userId d <> userId) foreign ->
  searchSimilarDocuments queryEmbedding userId limit threshold
    (before ++ foreign ++ after)
  = searchSimilarDocuments queryEmbedding userId limit threshold
      (before ++ after) /\
  forall out,
    searchSimilarDocuments queryEmbedding userId limit threshold
      (before ++ foreign ++ after) = Normal out ->
    Forall (ownedResult userId (before ++ after)) out.
Proof.
  intros Hforeign.
  assert (Hfind : Document_find userId (before ++ foreign ++ after) =
                  Document_find userId (before ++ after)).
  { unfold Document_find. rewrite !filter_app.
    fold (Document_find userId foreign).
    now rewrite (Document_find_foreign userId foreign Hforeign). }
  assert (Heq : searchSimilarDocuments queryEmbedding userId limit threshold
                  (before ++ foreign ++ after)
                = searchSimilarDocuments queryEmbedding userId limit threshold
                    (before ++ after)).
  { unfold searchSimilarDocuments. now rewrite Hfind. }
  split; [exact Heq |].
  intros out. rewrite Heq.
  destruct (dimensions_dec queryEmbedding (Document_find userId (before ++ after)))
    as [Hdim | Hbad].
  - rewrite (search_match _ _ limit threshold _ Hdim). intros [= <-].
    rewrite slice_from_0. apply Forall_firstn, sort_Forall.
    rewrite Forall_forall. intros r Hr.
    now apply (keptPairs_owned queryEmbedding threshold).
  - rewrite (search_mismatch _ _ limit threshold _ Hbad). discriminate.
Qed.

Lemma search_scoped_to_user_witness :
  searchSimilarDocuments [1; 0]%float Sample.alice 5 0.5%float Sample.store
  = searchSimilarDocuments [1; 0]%float Sample.alice 5 0.5%float
      [Sample.document "d1" "alice@example.org" [[1; 0]; [0; 1]; [3; 4]]%float;
       Sample.document "d3" "alice@example.org" [[2; 0]]%float].
Proof.
  apply (search_scoped_to_user [1; 0]%float Sample.alice 5 0.5%float
           [Sample.document "d1" "alice@example.org" [[1; 0]; [0; 1]; [3; 4]]%float]
           [Sample.document "d2" "bob@example.org" [[1; 0]]%float]
           [Sample.document "d3" "alice@example.org" [[2; 0]]%float]).
  constructor; [| constructor]. cbn. discriminate.
Defined.

(* ----------------------------------------------------------------- *)
(** ** Upload: embedding post-processing *)

Section NormalizeFacts.

Local Open Scope float_scope.

Lemma slice_768 (v : list float) : JSArray.slice v 0 768 = firstn 768 v.
Proof.
  rewrite slice_from_0. unfold JSArray.relativeIndex. cbn [Z.ltb Z.compare].
  destruct (Z.le_ge_cases 768 (Z.of_nat (length v))) as [H | H].
  - rewrite Z.min_l by exact H. reflexivity.
  - rewrite Z.min_r by lia. rewrite Nat2Z.id.
    rewrite !firstn_all2; [reflexivity | lia | lia].
Qed.

Lemma normalizeEmbedding_eq (embedding : Upload.ContentEmbedding) :
  Upload.normalizeEmbedding embedding =
  map (fun val => val / euclideanNorm (firstn 768 (rawValues embedding)))
    (firstn 768 (rawValues embedding)).
Proof.
  unfold Upload.normalizeEmbedding. fold (rawValues embedding).
  now rewrite slice_768.
Qed.

End NormalizeFacts.

Lemma divide_zeros_by_zero (v : list float) :
  zeroVector v -> map (fun val => val / 0)%float v = repeat nan (length v).
Proof.
  induction 1 as [| x v [-> | ->] _ IH]; cbn [map length repeat];
    [reflexivity | now rewrite IH ..].
Qed.

(** C1: the code has no guard for a zero norm.  On every zero vector the
    magnitude is [0] and each component becomes [0 / 0], which is NaN: the
    stored vector consists of NaN components and is not the zero vector
    (only the empty vector comes out unchanged). *)
Theorem normalizeEmbedding_zero_vector_gives_nan (raw : list float) :
  zeroVector raw ->
  Upload.normalizeEmbedding {| Upload.values := Some raw |}
  = repeat nan (Nat.min (length raw) 768).
Proof.
  intros Hz. rewrite normalizeEmbedding_eq. cbn [rawValues Upload.values].
  assert (Hcut : zeroVector (firstn 768 raw)) by now apply Forall_firstn.
  rewrite (euclideanNorm_zeroVector _ Hcut), (divide_zeros_by_zero _ Hcut).
  rewrite length_firstn. f_equal. apply Nat.min_comm.
Qed.

Lemma normalizeEmbedding_zero_vector_gives_nan_witness :
  Upload.normalizeEmbedding {| Upload.values := Some [0; -0; 0]%float |}
  = [nan; nan; nan].
Proof.
  apply (normalizeEmbedding_zero_vector_gives_nan [0; -0; 0]%float).
  constructor; [left; reflexivity |].
  constructor; [right; reflexivity |].
  constructor; [left; reflexivity | constructor].
Defined.

(** C8, as stated, fails for a raw vector of fewer than 768 components:
    nothing pads it, and the stored vector keeps its length (two here, and
    zero when the service gives no values). *)
Lemma normalizeEmbedding_short_vector_not_768 :
  length (Upload.normalizeEmbedding {| Upload.values := Some [3; 4]%float |})
  <> 768 /\
  length (Upload.normalizeEmbedding {| Upload.values := None |}) <> 768.
Proof. split; vm_compute; discriminate. Qed.

(** C8 (amended): every raw vector is cut to its first 768 components
    before normalization; the components beyond are discarded and play no
    part (the magnitude is that of the truncated vector, component [i] of
    the result is component [i] of the input divided by it).  The stored
    vector has [min n 768] components for a raw vector of [n], hence
    exactly 768 whenever the service returns at least 768. *)
Theorem normalizeEmbedding_truncates_to_768 (raw extra : list float) :
  768 <= length raw ->
  length (Upload.normalizeEmbedding {| Upload.values := Some (raw ++ extra) |})
  = 768 /\
  Upload.normalizeEmbedding {| Upload.values := Some (raw ++ extra) |}
  = map (fun val => val / euclideanNorm (firstn 768 raw))%float (firstn 768 raw) /\
  forall embedding : Upload.ContentEmbedding,
    length (Upload.normalizeEmbedding embedding)
    = Nat.min (length (rawValues embedding)) 768.
Proof.
  intros Hlen.
  assert (Hcut : firstn 768 (raw ++ extra) = firstn 768 raw).
  { rewrite firstn_app. replace (768 - length raw) with 0 by lia.
    cbn [firstn]. apply app_nil_r. }
  split; [| split].
  - rewrite normalizeEmbedding_eq. cbn [rawValues Upload.values].
    rewrite length_map, Hcut, length_firstn. lia.
  - rewrite normalizeEmbedding_eq. cbn [rawValues Upload.values].
    now rewrite Hcut.
  - intros embedding. rewrite normalizeEmbedding_eq, length_map, length_firstn. lia.
Qed.

Lemma normalizeEmbedding_truncates_to_768_witness :
  length (Upload.normalizeEmbedding
            {| Upload.values := Some (repeat 1%float 768 ++ [5; 7]%float) |})
  = 768.
Proof.
  apply (normalizeEmbedding_truncates_to_768 (repeat 1%float 768) [5; 7]%float).
  rewrite repeat_length. apply Nat.le_refl.
Defined.

(* ----------------------------------------------------------------- *)
(** ** Upload: the chunk filter *)

Section FilterFacts.

Context {A : Type}.
Variable p : A -> bool.

Lemma StronglySorted_map_S (l : list nat) :
  StronglySorted lt l -> StronglySorted lt (map S l).
Proof.
  induction 1 as [| i l Hs IH Hi]; cbn [map]; constructor; [exact IH |].
  rewrite Forall_forall in *. intros j Hj.
  apply in_map_iff in Hj as [k [<- Hk]]. apply -> Nat.succ_lt_mono. now apply Hi.
Qed.

(** The survivors of [filter], by their positions in the input. *)
Lemma filter_positions (l : list A) :
  exists indices : list nat,
    StronglySorted lt indices /\
    (forall i, In i indices <->
               exists x, nth_error l i = Some x /\ p x = true) /\
    map (nth_error l) indices = map Some (filter p l).
Proof.
  induction l as [| x l [indices [Hs [Hin Hmap]]]].
  - exists []. split; [constructor |]. split; [| reflexivity].
    intros i. split; [intros [] |]. intros [x [H _]]. destruct i; discriminate.
  - assert (Htail : forall i, In i (map S indices) <->
                      exists j y, i = S j /\ nth_error l j = Some y /\ p y = true).
    { intros i. rewrite in_map_iff. split.
      - intros [j [<- Hj]]. apply Hin in Hj as [y Hy]. now exists j, y.
      - intros [j [y [-> Hy]]]. exists j. split; [reflexivity |].
        apply Hin. now exists y. }
    assert (Hmap' : map (nth_error (x :: l)) (map S indices) = map Some (filter p l)).
    { rewrite map_map. exact Hmap. }
    cbn [filter]. destruct (p x) eqn:Ex.
    + exists (0 :: map S indices). split; [| split].
      * constructor; [now apply StronglySorted_map_S |].
        rewrite Forall_forall. intros i Hi.
        apply in_map_iff in Hi as [j [<- _]]. apply Nat.lt_0_succ.
      * intros i. cbn [In]. rewrite Htail. split.
        -- intros [<- | [j [y [-> Hy]]]]; [now exists x | now exists y].
        -- intros [y [Hy Hp]]. destruct i as [| j]; [now left |].
           right. now exists j, y.
      * cbn [map nth_error]. now rewrite Hmap'.
    + exists (map S indices). split; [| split].
      * now apply StronglySorted_map_S.
      * intros i. rewrite Htail. split.
        -- intros [j [y [-> Hy]]]. now exists y.
        -- intros [y [Hy Hp]]. destruct i as [| j].
           ++ cbn in Hy. injection Hy as <-. congruence.
           ++ now exists j, y.
      * exact Hmap'.
Qed.

End FilterFacts.

(** C9: after splitting, the chunks whose trimmed content is empty are
    discarded and the others kept: the retained chunks are exactly the
    chunks of non-empty trimmed content, in their original order (the
    positions [indices] they came from are increasing), and they occupy the
    indices [0], [1], ... of the result; every retained chunk has a trimmed
    length greater than 0. *)
Theorem filterChunks_keeps_nonempty_in_order (chunks : list JSString.t) :
  Forall (fun c => 0 < length (JSString.trim c)) (Upload.filterChunks chunks) /\
  exists indices : list nat,
    StronglySorted lt indices /\
    (forall i, In i indices <->
               exists c, nth_error chunks i = Some c /\
                         0 < length (JSString.trim c)) /\
    length indices = length (Upload.filterChunks chunks) /\
    forall k, k < length indices ->
      nth_error (Upload.filterChunks chunks) k
      = nth_error chunks (nth k indices 0) /\
      nth_error (Upload.filterChunks chunks) k <> None.
Proof.
  unfold Upload.filterChunks. split.
  - rewrite Forall_forall. intros c Hc. apply filter_In in Hc as [_ Hc].
    now apply Nat.ltb_lt.
  - destruct (filter_positions
                (fun chunk => 0 <? length (JSString.trim chunk)) chunks)
      as [indices [Hs [Hin Hmap]]].
    exists indices. split; [exact Hs |]. split; [| split].
    + intros i. rewrite Hin. split; intros [c [Hc Hp]]; exists c;
        (split; [exact Hc |]); now apply Nat.ltb_lt.
    + apply (f_equal (@length _)) in Hmap. now rewrite !length_map in Hmap.
    + intros k Hk.
      assert (Hlen : length indices =
                     length (filter (fun chunk => 0 <? length (JSString.trim chunk))
                               chunks)).
      { apply (f_equal (@length _)) in Hmap. now rewrite !length_map in Hmap. }
      assert (Hk' : nth_error (map (nth_error chunks) indices) k
                    = nth_error (map Some (filter
                        (fun chunk => 0 <? length (JSString.trim chunk)) chunks)) k)
        by now rewrite Hmap.
      rewrite !nth_error_map in Hk'.
      rewrite (nth_error_nth' indices 0 Hk) in Hk'. cbn [option_map] in Hk'.
      destruct (nth_error (filter _ chunks) k) as [c |] eqn:Ek.
      * cbn [option_map] in Hk'. injection Hk' as Hk'. split; [now symmetry | discriminate].
      * apply nth_error_None in Ek. lia.
Qed.

(* ----------------------------------------------------------------- *)
(** ** Upload: a failure of the embedding step *)

(** C6, as stated, fails where it says that the chunks-only document is
    persisted: the save is a second [try], and when [Document.create]
    rejects, or when the request has no session, the exception is swallowed
    and the collection is left as it was, while the response still reports
    success. *)
Lemma upload_degraded_not_always_persisted :
  (Upload.generateEmbeddings
     (Sample.upload (Some Sample.alice) (Throw (JSError (JSString.lit "write failed"))))
     [JSString.lit "aa bb"] = Throw Upload.notConfigured /\
   exists response,
     Upload.POST
       (Sample.upload (Some Sample.alice) (Throw (JSError (JSString.lit "write failed"))))
       [] = ({| Upload.status := 200; Upload.body := Upload.UploadBody response |}, []) /\
     Upload.success response = true /\
     Upload.documentId response = None) /\
  (Upload.generateEmbeddings
     (Sample.upload None (Normal (JSString.lit "doc1")))
     [JSString.lit "aa bb"] = Throw Upload.notAuthenticated /\
   exists response,
     Upload.POST (Sample.upload None (Normal (JSString.lit "doc1"))) []
     = ({| Upload.status := 200; Upload.body := Upload.UploadBody response |}, []) /\
     Upload.success response = true /\
     Upload.documentId response = None).
Proof.
  split; (split; [reflexivity |]); eexists; (split; [reflexivity |]);
    split; reflexivity.
Qed.

(** C6 (amended): when embedding generation fails on an upload, the failure
    is caught and the upload goes on: the response has status 200 and
    reports success with the chunks, an empty embeddings sequence and the
    reason of the failure.  The chunks-only document is handed to the
    document store.  When the request has a session and the store accepts
    the record, the record is appended to the collection and its id is
    reported.  When the request has no session, or when the store rejects
    the record, the exception of the save is swallowed: the response
    carries no document id and the collection is left as it was. *)
Theorem upload_survives_embedding_failure (env : Upload.Env) (store : Store)
  (file : Upload.File) (cleanedText : JSString.t) (chunks : list JSString.t)
  (error : Thrown) :
  Upload.prepare env = inr (file, cleanedText, chunks) ->
  Upload.generateEmbeddings env chunks = Throw error ->
  exists response store',
    Upload.POST env store
    = ({| Upload.status := 200; Upload.body := Upload.UploadBody response |},
       store') /\
    Upload.success response = true /\
    Upload.chunks response = chunks /\
    Upload.chunkCount response = length chunks /\
    Upload.resp_embeddings response = [] /\
    Upload.embeddingCount response = 0 /\
    Upload.hasEmbeddings response = false /\
    Upload.embeddingError response = Some (Upload.errorMessage error) /\
    (forall email id,
        Upload.truthy (Upload.sessionEmail env) = Some email ->
        Upload.Document_create env
          (Upload.documentData env email file cleanedText chunks []) = Normal id ->
        Upload.documentId response = Some id /\
        exists document,
          store' = store ++ [document] /\
          IDocument._id document = id /\
          IDocument.userId document = email /\
          IDocument.chunks document = chunks /\
          IDocument.embeddings document = []) /\
    (Upload.truthy (Upload.sessionEmail env) = None ->
     Upload.documentId response = None /\ store' = store) /\
    (forall email rejection,
        Upload.truthy (Upload.sessionEmail env) = Some email ->
        Upload.Document_create env
          (Upload.documentData env email file cleanedText chunks [])
        = Throw rejection ->
        Upload.documentId response = None /\ store' = store) /\
    (Upload.documentId response = None -> store' = store).
Proof.
  intros Hprep Hgen. unfold Upload.POST, Upload.finish. rewrite Hprep, Hgen.
  unfold Upload.saveDocument, Upload.requireSession.
  destruct (Upload.truthy (Upload.sessionEmail env)) as [email |] eqn:Hs.
  - destruct (Upload.Document_create env
                (Upload.documentData env email file cleanedText chunks []))
      as [id | e] eqn:Hc.
    + eexists _, _. split; [reflexivity |]. cbn.
      repeat (split; [reflexivity |]).
      split; [| split; [discriminate | split; [| discriminate]]].
      * intros email' id' [= <-] Hc'. rewrite Hc in Hc'. injection Hc' as <-.
        split; [reflexivity |]. eexists. split; [reflexivity |].
        repeat split.
      * intros email' e' [= <-] Hc'. rewrite Hc in Hc'. discriminate.
    + eexists _, _. split; [reflexivity |]. cbn.
      repeat (split; [reflexivity |]).
      split; [| split; [discriminate | split; [| reflexivity]]].
      * intros email' id' [= <-] Hc'. rewrite Hc in Hc'. discriminate.
      * intros email' e' _ _. now split.
  - eexists _, _. split; [reflexivity |]. cbn.
    repeat (split; [reflexivity |]).
    split; [| split; [| split; [| reflexivity]]].
    + intros email' id' H. discriminate.
    + intros _. now split.
    + intros email' e' H. discriminate.
Qed.

Lemma upload_survives_embedding_failure_witness :
  exists response store',
    Upload.POST (Sample.upload (Some Sample.alice) (Normal (JSString.lit "doc1"))) []
    = ({| Upload.status := 200; Upload.body := Upload.UploadBody response |},
       store') /\
    Upload.success response = true /\
    Upload.embeddingError response
    = Some (JSString.lit "Gemini API key not configured") /\
    Upload.documentId response = Some (JSString.lit "doc1") /\
    length store' = 1.
Proof.
  destruct (upload_survives_embedding_failure
              (Sample.upload (Some Sample.alice) (Normal (JSString.lit "doc1")))
              [] Sample.uploadedFile (JSString.lit "aa bb") [JSString.lit "aa bb"]
              Upload.notConfigured eq_refl eq_refl)
    as [response [store' [HPOST [Hsucc [_ [_ [_ [_ [_ [Herr [Hsave _]]]]]]]]]]].
  exists response, store'. split; [exact HPOST |]. split; [exact Hsucc |].
  split; [exact Herr |].
  destruct (Hsave Sample.alice (JSString.lit "doc1") eq_refl eq_refl)
    as [Hid [document [-> _]]].
  split; [exact Hid | reflexivity].
Defined.

(* ================================================================= *)
(** * Part IV: further properties of the code *)

(* ----------------------------------------------------------------- *)
(** ** Search: edge cases and ranking *)

(** X1: a user without documents, or whose documents have no embeddings,
    gets an empty result and no error, whatever the query, limit and
    threshold. *)
Theorem search_without_candidates_is_empty (queryEmbedding : list float)
  (userId : JSString.t) (limit : Z) (threshold : float) (store : Store) :
  Forall (fun d => IDocument.embeddings d = []) (Document_find userId store) ->
  searchSimilarDocuments queryEmbedding userId limit threshold store = Normal [].
Proof.
  intros Hempty.
  assert (Hdim : dimensionsMatch queryEmbedding (Document_find userId store)).
  { unfold dimensionsMatch. rewrite Forall_forall in *. intros d Hd.
    rewrite (Hempty d Hd). constructor. }
  rewrite (search_match _ _ limit threshold _ Hdim).
  assert (Hkept : keptPairs queryEmbedding threshold (Document_find userId store) = []).
  { clear Hdim. induction Hempty as [| d l Hd _ IH]; [reflexivity |].
    rewrite keptPairs_cons, IH. unfold pairsOf. now rewrite Hd. }
  rewrite Hkept. cbn [JSArray.sort fold_right]. now rewrite slice_from_0, firstn_nil.
Qed.

Lemma search_without_candidates_is_empty_witness :
  searchSimilarDocuments [1; 0]%float Sample.bob 5 0.5%float
    [Sample.document "d1" "alice@example.org" [[1; 0]]%float;
     Sample.document "d5" "bob@example.org" []] = Normal [].
Proof.
  apply search_without_candidates_is_empty.
  constructor; [reflexivity | constructor].
Defined.

Lemma StronglySorted_app_between {A : Type} (R : A -> A -> Prop) (l1 l2 : list A) :
  StronglySorted R (l1 ++ l2) ->
  Forall (fun y => Forall (fun x => R x y) l1) l2.
Proof.
  induction l1 as [| a l1 IH]; cbn [app]; intros H.
  - rewrite Forall_forall. intros y _. constructor.
  - inversion H as [| ? ? Hs Ha]; subst. specialize (IH Hs).
    rewrite Forall_forall in *. intros y Hy. constructor.
    + apply Ha. apply in_or_app. now right.
    + now apply IH.
Qed.

(** X2: the results are the best matches.  With a limit that is not
    negative, the kept pairs split into the returned results and the
    dropped ones, no returned result has a lower similarity than a dropped
    one, and results are dropped only for the limit: their number is the
    smaller of the limit and the number of kept pairs. *)
Theorem search_returns_best_matches (queryEmbedding : list float)
  (userId : JSString.t) (limit : Z) (threshold : float) (store : Store) :
  (0 <= limit)%Z ->
  dimensionsMatch queryEmbedding (Document_find userId store) ->
  exists out dropped,
    searchSimilarDocuments queryEmbedding userId limit threshold store
    = Normal out /\
    Permutation (out ++ dropped)
      (keptPairs queryEmbedding threshold (Document_find userId store)) /\
    Forall (fun worse => Forall (fun r => geSimilarity r worse) out) dropped /\
    length out
    = Nat.min (Z.to_nat limit)
        (length (keptPairs queryEmbedding threshold (Document_find userId store))).
Proof.
  intros Hlimit Hdim.
  set (kept := keptPairs queryEmbedding threshold (Document_find userId store)).
  set (n := Z.to_nat (JSArray.relativeIndex
                        (Z.of_nat (length (JSArray.sort compareFn kept))) limit)).
  exists (firstn n (JSArray.sort compareFn kept)),
         (skipn n (JSArray.sort compareFn kept)).
  split; [| split; [| split]].
  - rewrite (search_match _ _ limit threshold _ Hdim). fold kept.
    now rewrite slice_from_0.
  - rewrite firstn_skipn. apply sort_perm.
  - apply StronglySorted_app_between. rewrite firstn_skipn.
    apply (sort_sorted threshold). apply keptPairs_reach.
  - rewrite length_firstn. subst n. rewrite sort_length.
    unfold JSArray.relativeIndex. destruct (Z.ltb_spec limit 0); lia.
Qed.

Lemma search_returns_best_matches_witness :
  exists out dropped,
    searchSimilarDocuments [1; 0]%float Sample.alice 2 0.5%float Sample.store
    = Normal out /\
    Permutation (out ++ dropped)
      (keptPairs [1; 0]%float 0.5%float (Document_find Sample.alice Sample.store)) /\
    Forall (fun worse => Forall (fun r => geSimilarity r worse) out) dropped /\
    length out = 2.
Proof.
  apply (search_returns_best_matches [1; 0]%float Sample.alice 2 0.5%float
           Sample.store); [lia |].
  cbn. repeat (constructor; [repeat (constructor; [reflexivity |]); constructor |]).
  constructor.
Defined.

(** X3: a smaller limit returns a prefix of what a larger limit returns:
    for [0 <= limit1 <= limit2], the results for [limit1] are the first
    [limit1] results for [limit2] (and an error for one is the same error
    for the other). *)
Theorem search_smaller_limit_is_prefix (queryEmbedding : list float)
  (userId : JSString.t) (limit1 limit2 : Z) (threshold : float) (store : Store) :
  (0 <= limit1 <= limit2)%Z ->
  searchSimilarDocuments queryEmbedding userId limit1 threshold store
  = bind (searchSimilarDocuments queryEmbedding userId limit2 threshold store)
      (fun out => Normal (JSArray.slice out 0 limit1)).
Proof.
  intros Hl. unfold searchSimilarDocuments.
  destruct (documentLoop queryEmbedding threshold (Document_find userId store) [])
    as [results | e]; cbn [bind]; [| reflexivity].
  f_equal. rewrite !slice_from_0, length_firstn, firstn_firstn. f_equal.
  unfold JSArray.relativeIndex.
  destruct (Z.ltb_spec limit1 0), (Z.ltb_spec limit2 0); lia.
Qed.

Lemma search_smaller_limit_is_prefix_witness :
  searchSimilarDocuments [1; 0]%float Sample.alice 1 0.5%float Sample.store
  = bind (searchSimilarDocuments [1; 0]%float Sample.alice 3 0.5%float Sample.store)
      (fun out => Normal (JSArray.slice out 0 1)).
Proof.
  apply search_smaller_limit_is_prefix. lia.
Defined.

(* ----------------------------------------------------------------- *)
(** ** Cosine similarity is symmetric *)

Lemma SFmul_comm (prec emax : Z) (x y : spec_float) :
  SFmul prec emax x y = SFmul prec emax y x.
Proof.
  destruct x as [sx | sx | | sx mx ex], y as [sy | sy | | sy my ey];
    cbn [SFmul]; try reflexivity; try (now rewrite xorb_comm).
  now rewrite xorb_comm, Pos.mul_comm, Z.add_comm.
Qed.

Lemma float_mul_comm (x y : float) : (x * y = y * x)%float.
Proof.
  apply Prim2SF_inj. rewrite !mul_spec. apply SFmul_comm.
Qed.

Lemma dot_comm (a : list float) : forall b, dot a b = dot b a.
Proof.
  unfold dot. generalize 0%float as acc.
  induction a as [| x a IH]; intros acc [| y b]; cbn [combine fold_left];
    try reflexivity.
  cbn [fst snd]. rewrite (float_mul_comm x y). apply IH.
Qed.

(** X4: [cosineSimilarity] is symmetric in its two vectors, the exception
    for unequal lengths included: the products and the two norms are the
    same binary64 numbers in either order. *)
Theorem cosineSimilarity_symmetric (vecA vecB : list float) :
  cosineSimilarity vecA vecB = cosineSimilarity vecB vecA.
Proof.
  destruct (Nat.eq_dec (length vecA) (length vecB)) as [Hlen | Hlen].
  - rewrite (cosineSimilarity_equal_length vecA vecB Hlen).
    rewrite (cosineSimilarity_equal_length vecB vecA (eq_sym Hlen)).
    unfold similarityOf.
    rewrite (orb_comm (euclideanNorm vecA =? 0)%float), (dot_comm vecA vecB).
    now rewrite (float_mul_comm (euclideanNorm vecA)).
  - rewrite (cosineSimilarity_unequal_length vecA vecB Hlen).
    now rewrite (cosineSimilarity_unequal_length vecB vecA (not_eq_sym Hlen)).
Qed.

(* ----------------------------------------------------------------- *)
(** ** Search: what a result holds *)

Lemma pairsFrom_nth (d d' : IDocument.t) (j : nat) (e : list float)
  (pending : list (list float)) :
  forall i, In (d', j, e) (pairsFrom d i pending) ->
            nth_error pending (j - i) = Some e.
Proof.
  unfold pairsFrom. induction pending as [| x pending IH]; intros i H.
  - destruct H.
  - cbn [length seq combine map In fst snd] in H. destruct H as [H | H].
    + injection H as _ <- <-. now rewrite Nat.sub_diag.
    + pose proof (pairsFrom_In d d' (S i) j e pending H) as [_ Hj].
      replace (j - i) with (S (j - S i)) by lia. cbn [nth_error].
      now apply IH.
Qed.

(** X5: every returned result is aligned with its document: the chunk text
    is the document's chunk at the result's index, and the similarity is
    the cosine similarity of the query and of the document's embedding at
    that same index, which reaches the threshold. *)
Theorem search_results_are_aligned (queryEmbedding : list float)
  (userId : JSString.t) (limit : Z) (threshold : float) (store : Store)
  (out : list SearchResult.t) :
  searchSimilarDocuments queryEmbedding userId limit threshold store
  = Normal out ->
  Forall (fun r =>
            exists d e,
              In d (Document_find userId store) /\
              SearchResult.documentId r = IDocument._id d /\
              SearchResult.chunk r
              = nth_error (IDocument.chunks d) (SearchResult.chunkIndex r) /\
              nth_error (IDocument.embeddings d) (SearchResult.chunkIndex r)
              = Some e /\
              cosineSimilarity queryEmbedding e
              = Normal (SearchResult.similarity r) /\
              (threshold <=? SearchResult.similarity r)%float = true)
    out.
Proof.
  destruct (dimensions_dec queryEmbedding (Document_find userId store))
    as [Hdim | Hbad].
  - rewrite (search_match _ _ limit threshold _ Hdim). intros [= <-].
    rewrite slice_from_0. apply Forall_firstn, sort_Forall.
    rewrite Forall_forall. intros r Hr. unfold keptPairs, scanOrder in Hr.
    apply filter_In in Hr as [Hr Hth].
    apply in_map_iff in Hr as [[[d j] e] [<- Hin]].
    apply in_flat_map in Hin as [d0 [Hd0 Hin]].
    pose proof (pairsFrom_In _ _ _ _ _ _ Hin) as [-> _].
    apply pairsFrom_nth in Hin. rewrite Nat.sub_0_r in Hin.
    exists d0, e. cbn [resultOf SearchResult.documentId SearchResult.chunk
                     SearchResult.chunkIndex SearchResult.similarity] in *.
    repeat split; auto.
    apply cosineSimilarity_equal_length. symmetry.
    unfold dimensionsMatch in Hdim. rewrite Forall_forall in Hdim.
    specialize (Hdim d0 Hd0). rewrite Forall_forall in Hdim.
    apply Hdim. now apply nth_error_In in Hin.
  - rewrite (search_mismatch _ _ limit threshold _ Hbad). discriminate.
Qed.

Lemma search_results_are_aligned_witness :
  Forall (fun r =>
            exists d e,
              In d (Document_find Sample.alice Sample.store) /\
              SearchResult.documentId r = IDocument._id d /\
              SearchResult.chunk r
              = nth_error (IDocument.chunks d) (SearchResult.chunkIndex r) /\
              nth_error (IDocument.embeddings d) (SearchResult.chunkIndex r)
              = Some e /\
              cosineSimilarity [1; 0]%float e
              = Normal (SearchResult.similarity r) /\
              (0.5 <=? SearchResult.similarity r)%float = true)
    (JSArray.slice
       (JSArray.sort compareFn
          (keptPairs [1; 0]%float 0.5%float
             (Document_find Sample.alice Sample.store))) 0 5).
Proof.
  apply (search_results_are_aligned [1; 0]%float Sample.alice 5 0.5%float
           Sample.store).
  reflexivity.
Defined.

(* ----------------------------------------------------------------- *)
(** ** Deleting a document *)

Lemma findOneAndDelete_none (documentId userId : JSString.t) (store : Store) :
  (forall d, In d store -> IDocument._id d = documentId ->
             IDocument.userId d <> userId) ->
  Document_findOneAndDelete documentId userId store = (None, store).
Proof.
  induction store as [| d store IH]; intros H; cbn [Document_findOneAndDelete];
    [reflexivity |].
  destruct (JSString.eqb (IDocument._id d) documentId) eqn:Eid;
    destruct (JSString.eqb (IDocument.userId d) userId) eqn:Eu; cbn [andb];
    try (rewrite IH; [reflexivity | intros d' Hd'; apply H; now right]).
  apply JSString_eqb_eq in Eid, Eu. exfalso. exact (H d (or_introl eq_refl) Eid Eu).
Qed.

Lemma findOneAndDelete_some (documentId userId : JSString.t)
  (before after : list IDocument.t) (d : IDocument.t) :
  IDocument._id d = documentId -> IDocument.userId d = userId ->
  (forall d', In d' before -> IDocument._id d' = documentId ->
              IDocument.userId d' <> userId) ->
  Document_findOneAndDelete documentId userId (before ++ d :: after)
  = (Some d, before ++ after).
Proof.
  intros Hid Hu. induction before as [| x before IH]; intros H;
    cbn [app Document_findOneAndDelete].
  - rewrite (proj2 (JSString_eqb_eq _ _) Hid), (proj2 (JSString_eqb_eq _ _) Hu).
    reflexivity.
  - destruct (JSString.eqb (IDocument._id x) documentId) eqn:Eid;
      destruct (JSString.eqb (IDocument.userId x) userId) eqn:Eu; cbn [andb];
      try (rewrite IH; [reflexivity | intros d' Hd'; apply H; now right]).
    apply JSString_eqb_eq in Eid, Eu. exfalso. exact (H x (or_introl eq_refl) Eid Eu).
Qed.

(** The two outcomes of [findOneAndDelete]. *)
Lemma findOneAndDelete_cases (documentId userId : JSString.t) (store : Store) :
  Document_findOneAndDelete documentId userId store = (None, store) \/
  exists before d after,
    store = before ++ d :: after /\
    IDocument._id d = documentId /\ IDocument.userId d = userId /\
    Document_findOneAndDelete documentId userId store = (Some d, before ++ after).
Proof.
  induction store as [| x store IH]; cbn [Document_findOneAndDelete];
    [now left |].
  destruct (JSString.eqb (IDocument._id x) documentId) eqn:Eid;
    destruct (JSString.eqb (IDocument.userId x) userId) eqn:Eu; cbn [andb].
  1: { right. exists [], x, store. apply JSString_eqb_eq in Eid, Eu. now repeat split. }
  all: destruct IH as [-> | [before [d [after [-> [Hid [Hu ->]]]]]]];
    [now left | right; exists (x :: before), d, after; now repeat split].
Qed.

Section DeleteFacts.

Variable castObjectId : JSString.t -> Completion JSString.t.

(** X6: deleting a document that the user does not own deletes nothing.
    When the id asked is an ObjectId that no document of the user carries
    (another user's document, or the id of no document), [deleteDocument]
    returns [false]; when the id asked is not an ObjectId, the call
    rejects with the cast error of the query.  In both cases the
    collection is left exactly as it was. *)
Theorem deleteDocument_of_other_user_is_refused (documentId userId : JSString.t)
  (store : Store) :
  (forall objectId d,
      castObjectId documentId = Normal objectId ->
      In d store -> IDocument._id d = objectId ->
      IDocument.userId d <> userId) ->
  deleteDocument castObjectId documentId userId store
  = (match castObjectId documentId with
     | Normal _ => Normal false
     | Throw error => Throw error
     end, store).
Proof.
  intros H. unfold deleteDocument.
  destruct (castObjectId documentId) as [objectId | error]; [| reflexivity].
  now rewrite (findOneAndDelete_none objectId userId store
                 (fun d => H objectId d eq_refl)).
Qed.

(** X7: deleting a document that the user owns returns [true] and removes
    that document and nothing else: the other documents stay, in their
    order.  The id asked is any string that denotes the ObjectId of the
    document. *)
Theorem deleteDocument_removes_the_document (documentId userId : JSString.t)
  (before after : list IDocument.t) (d : IDocument.t) :
  castObjectId documentId = Normal (IDocument._id d) ->
  IDocument.userId d = userId ->
  (forall d', In d' before -> IDocument._id d' <> IDocument._id d) ->
  deleteDocument castObjectId documentId userId (before ++ d :: after)
  = (Normal true, before ++ after).
Proof.
  intros Hid Hu Hbefore. unfold deleteDocument. rewrite Hid.
  rewrite (findOneAndDelete_some (IDocument._id d) userId before after d
             eq_refl Hu);
    [reflexivity |].
  intros d' Hd' Hid'. exfalso. exact (Hbefore d' Hd' Hid').
Qed.

(** X8: a deletion asked by one user never touches what another user
    sees: the other user's documents, and hence the outcome of each of the
    other user's searches, are the same before and after, whatever id was
    asked and whether the call returns or throws. *)
Theorem deleteDocument_leaves_other_users (documentId userId other : JSString.t)
  (store : Store) (queryEmbedding : list float) (limit : Z) (threshold : float) :
  other <> userId ->
  Document_find other (snd (deleteDocument castObjectId documentId userId store))
  = Document_find other store /\
  searchSimilarDocuments queryEmbedding other limit threshold
    (snd (deleteDocument castObjectId documentId userId store))
  = searchSimilarDocuments queryEmbedding other limit threshold store.
Proof.
  intros Hother.
  assert (Hfind : Document_find other
                    (snd (deleteDocument castObjectId documentId userId store))
                  = Document_find other store).
  { unfold deleteDocument.
    destruct (castObjectId documentId) as [objectId | error]; [| reflexivity].
    destruct (findOneAndDelete_cases objectId userId store)
      as [-> | [before [d [after [-> [Hid [Hu ->]]]]]]]; cbn [snd]; [reflexivity |].
    unfold Document_find. rewrite !filter_app. cbn [filter].
    destruct (JSString.eqb (IDocument.userId d) other) eqn:E; [| reflexivity].
    apply JSString_eqb_eq in E. congruence. }
  split; [exact Hfind |]. unfold searchSimilarDocuments. now rewrite Hfind.
Qed.

(** X9: in a collection whose ids are unique, a document that was deleted
    is gone from every search: after a successful [deleteDocument], the id
    asked denotes an ObjectId, and no result of any user's search carries
    that ObjectId; when the ids of the collection are ObjectIds in their
    printed form, no result carries the string that was asked either. *)
Theorem deleted_document_is_not_searchable (documentId userId : JSString.t)
  (store store' : Store) (queryEmbedding : list float) (anyUser : JSString.t)
  (limit : Z) (threshold : float) (out : list SearchResult.t) :
  NoDup (map IDocument._id store) ->
  deleteDocument castObjectId documentId userId store = (Normal true, store') ->
  searchSimilarDocuments queryEmbedding anyUser limit threshold store'
  = Normal out ->
  exists objectId,
    castObjectId documentId = Normal objectId /\
    Forall (fun r => SearchResult.documentId r <> objectId) out /\
    ((forall d, In d store ->
                castObjectId (IDocument._id d) = Normal (IDocument._id d)) ->
     Forall (fun r => SearchResult.documentId r <> documentId) out).
Proof.
  intros Hnodup Hdel Hsearch. unfold deleteDocument in Hdel.
  destruct (castObjectId documentId) as [objectId | error] eqn:Hcast;
    [| discriminate].
  exists objectId. split; [reflexivity |].
  destruct (findOneAndDelete_cases objectId userId store)
    as [E | [before [d [after [-> [Hid [Hu E]]]]]]]; rewrite E in Hdel;
    [discriminate |].
  injection Hdel as <-.
  assert (Hgone : forall d', In d' (before ++ after) -> IDocument._id d' <> objectId).
  { rewrite map_app in Hnodup. cbn [map] in Hnodup.
    apply NoDup_remove_2 in Hnodup. rewrite <- map_app in Hnodup.
    intros d' Hd' Heq. apply Hnodup. rewrite Hid, <- Heq. now apply in_map. }
  assert (Hresults : forall r, In r out ->
            exists d', In d' (before ++ after) /\
                       SearchResult.documentId r = IDocument._id d').
  { destruct (dimensions_dec queryEmbedding (Document_find anyUser (before ++ after)))
      as [Hdim | Hbad].
    - rewrite (search_match _ _ limit threshold _ Hdim) in Hsearch.
      injection Hsearch as <-. apply Forall_forall.
      rewrite slice_from_0. apply Forall_firstn, sort_Forall.
      rewrite Forall_forall. intros r Hr.
      destruct (keptPairs_owned queryEmbedding threshold anyUser _ r Hr)
        as [d' [Hd' [_ [Hrid _]]]].
      now exists d'.
    - rewrite (search_mismatch _ _ limit threshold _ Hbad) in Hsearch.
      discriminate. }
  split.
  - rewrite Forall_forall. intros r Hr.
    destruct (Hresults r Hr) as [d' [Hd' ->]]. now apply Hgone.
  - intros Hprinted. rewrite Forall_forall. intros r Hr.
    destruct (Hresults r Hr) as [d' [Hd' ->]]. intros Heq.
    apply (Hgone d' Hd').
    assert (Hin : In d' (before ++ d :: after)).
    { apply in_app_or in Hd' as [Hd' | Hd']; apply in_or_app;
        [now left | right; now right]. }
    specialize (Hprinted d' Hin). rewrite Heq, Hcast in Hprinted.
    now injection Hprinted as <-.
Qed.

End DeleteFacts.

Lemma deleteDocument_of_other_user_is_refused_witness :
  deleteDocument Sample2.castObjectId
    (JSString.lit "65a1f0c2b3d4e5f6a7b8c9d1") Sample.bob Sample2.documents
  = (Normal false, Sample2.documents) /\
  deleteDocument Sample2.castObjectId (JSString.lit "d1") Sample.bob
    Sample2.documents
  = (Throw (JSError (JSString.lit "Cast to ObjectId failed")),
     Sample2.documents).
Proof.
  split.
  - apply (deleteDocument_of_other_user_is_refused Sample2.castObjectId
             (JSString.lit "65a1f0c2b3d4e5f6a7b8c9d1") Sample.bob
             Sample2.documents).
    intros objectId d [= <-] [<- | [<- | [<- | []]]]; cbn; intros H;
      discriminate.
  - apply (deleteDocument_of_other_user_is_refused Sample2.castObjectId
             (JSString.lit "d1") Sample.bob Sample2.documents).
    intros objectId d H. discriminate.
Defined.

Lemma deleteDocument_removes_the_document_witness :
  deleteDocument Sample2.castObjectId
    (JSString.lit "65A1F0C2B3D4E5F6A7B8C9D3") Sample.alice Sample2.documents
  = (Normal true,
     [Sample.document "65a1f0c2b3d4e5f6a7b8c9d1" "alice@example.org"
        [[1; 0]; [0; 1]; [3; 4]]%float;
      Sample.document "65a1f0c2b3d4e5f6a7b8c9d2" "bob@example.org"
        [[1; 0]]%float]).
Proof.
  apply (deleteDocument_removes_the_document Sample2.castObjectId
           (JSString.lit "65A1F0C2B3D4E5F6A7B8C9D3") Sample.alice
           [Sample.document "65a1f0c2b3d4e5f6a7b8c9d1" "alice@example.org"
              [[1; 0]; [0; 1]; [3; 4]]%float;
            Sample.document "65a1f0c2b3d4e5f6a7b8c9d2" "bob@example.org"
              [[1; 0]]%float]
           []
           (Sample.document "65a1f0c2b3d4e5f6a7b8c9d3" "alice@example.org"
              [[2; 0]]%float)
           eq_refl eq_refl).
  intros d' [<- | [<- | []]]; cbn; discriminate.
Defined.

Lemma deleteDocument_leaves_other_users_witness :
  searchSimilarDocuments [1; 0]%float Sample.bob 5 0.5%float
    (snd (deleteDocument Sample2.castObjectId
            (JSString.lit "65a1f0c2b3d4e5f6a7b8c9d2") Sample.alice
            Sample2.documents))
  = searchSimilarDocuments [1; 0]%float Sample.bob 5 0.5%float
      Sample2.documents.
Proof.
  apply (deleteDocument_leaves_other_users Sample2.castObjectId
           (JSString.lit "65a1f0c2b3d4e5f6a7b8c9d2") Sample.alice
           Sample.bob Sample2.documents [1; 0]%float 5 0.5%float).
  cbn. discriminate.
Defined.

Lemma deleted_document_is_not_searchable_witness :
  exists objectId,
    Sample2.castObjectId (JSString.lit "65a1f0c2b3d4e5f6a7b8c9d3")
    = Normal objectId /\
    Forall (fun r => SearchResult.documentId r <> objectId)
      (JSArray.slice
         (JSArray.sort compareFn
            (keptPairs [1; 0]%float 0.5%float
               (Document_find Sample.alice
                  [Sample.document "65a1f0c2b3d4e5f6a7b8c9d1" "alice@example.org"
                     [[1; 0]; [0; 1]; [3; 4]]%float;
                   Sample.document "65a1f0c2b3d4e5f6a7b8c9d2" "bob@example.org"
                     [[1; 0]]%float])))
         0 5).
Proof.
  destruct (deleted_document_is_not_searchable Sample2.castObjectId
              (JSString.lit "65a1f0c2b3d4e5f6a7b8c9d3") Sample.alice
              Sample2.documents
              [Sample.document "65a1f0c2b3d4e5f6a7b8c9d1" "alice@example.org"
                 [[1; 0]; [0; 1]; [3; 4]]%float;
               Sample.document "65a1f0c2b3d4e5f6a7b8c9d2" "bob@example.org"
                 [[1; 0]]%float]
              [1; 0]%float Sample.alice 5 0.5%float
              (JSArray.slice
                 (JSArray.sort compareFn
                    (keptPairs [1; 0]%float 0.5%float
                       (Document_find Sample.alice
                          [Sample.document "65a1f0c2b3d4e5f6a7b8c9d1"
                             "alice@example.org" [[1; 0]; [0; 1]; [3; 4]]%float;
                           Sample.document "65a1f0c2b3d4e5f6a7b8c9d2"
                             "bob@example.org" [[1; 0]]%float])))
                 0 5))
    as [objectId [Hcast [Hgone _]]].
  - cbn. repeat (constructor; [cbn; intuition discriminate |]). constructor.
  - reflexivity.
  - reflexivity.
  - exists objectId. split; [exact Hcast | exact Hgone].
Defined.

(* ----------------------------------------------------------------- *)
(** ** Trimming and cleaning text *)

Section TrimFacts.

Local Abbreviation ws := JSString.isWhiteSpace.

Lemma trimStart_app (a b : JSString.t) :
  JSString.trimStart (a ++ b)
  = if forallb ws a then JSString.trimStart b else JSString.trimStart a ++ b.
Proof.
  induction a as [| c a IH]; cbn [app JSString.trimStart forallb]; [reflexivity |].
  destruct (ws c); cbn [andb]; [exact IH | reflexivity].
Qed.

Lemma trimStart_nil_iff (s : JSString.t) :
  JSString.trimStart s = [] <-> forallb ws s = true.
Proof.
  induction s as [| c s IH]; cbn [JSString.trimStart forallb]; [tauto |].
  destruct (ws c); cbn [andb]; [exact IH |]. split; discriminate.
Qed.

Lemma trimEnd_rec (s : JSString.t) : JSString.trimEnd s = trimEndRec s.
Proof.
  unfold JSString.trimEnd. induction s as [| c s IH]; [reflexivity |].
  cbn [rev trimEndRec]. rewrite trimStart_app, <- IH.
  destruct (forallb ws (rev s)) eqn:E.
  - apply trimStart_nil_iff in E. rewrite E. cbn [rev JSString.trimStart].
    destruct (ws c); reflexivity.
  - rewrite rev_app_distr. cbn [rev app].
    destruct (rev (JSString.trimStart (rev s))) eqn:E2; [| reflexivity].
    apply (f_equal (@rev _)) in E2. rewrite rev_involutive in E2. cbn in E2.
    apply trimStart_nil_iff in E2. congruence.
Qed.

Lemma trimEndRec_nil_iff (s : JSString.t) :
  trimEndRec s = [] <-> forallb ws s = true.
Proof.
  induction s as [| c s IH]; cbn [trimEndRec forallb]; [tauto |].
  destruct (trimEndRec s) eqn:E.
  - destruct (ws c); cbn [andb]; [tauto | split; discriminate].
  - split; [discriminate |]. intros H. apply andb_prop in H as [_ H].
    apply IH in H. discriminate.
Qed.

Lemma forallb_trimStart (s : JSString.t) :
  forallb ws (JSString.trimStart s) = forallb ws s.
Proof.
  induction s as [| c s IH]; cbn [JSString.trimStart forallb]; [reflexivity |].
  destruct (ws c) eqn:E; cbn [andb forallb]; [exact IH | now rewrite E].
Qed.

Lemma trim_nil_iff (s : JSString.t) :
  JSString.trim s = [] <-> forallb ws s = true.
Proof.
  unfold JSString.trim. now rewrite trimEnd_rec, trimEndRec_nil_iff, forallb_trimStart.
Qed.

Lemma contentOf_trimStart (s : JSString.t) :
  contentOf (JSString.trimStart s) = contentOf s.
Proof.
  unfold contentOf, isContent.
  induction s as [| c s IH]; cbn [JSString.trimStart filter]; [reflexivity |].
  destruct (ws c) eqn:E; cbn [negb filter]; [exact IH | now rewrite E].
Qed.

Lemma contentOf_trimEndRec (s : JSString.t) :
  contentOf (trimEndRec s) = contentOf s.
Proof.
  unfold contentOf, isContent.
  induction s as [| c s IH]; cbn [trimEndRec filter]; [reflexivity |].
  destruct (trimEndRec s) as [| n l] eqn:E.
  - rewrite <- IH. destruct (ws c) eqn:Ec; cbn [negb filter]; [reflexivity |].
    now rewrite Ec.
  - change (c :: n :: l) with ([c] ++ n :: l).
    rewrite filter_app, IH. cbn [filter app]. now destruct (negb (ws c)).
Qed.

Lemma contentOf_trim (s : JSString.t) : contentOf (JSString.trim s) = contentOf s.
Proof.
  unfold JSString.trim. now rewrite trimEnd_rec, contentOf_trimEndRec, contentOf_trimStart.
Qed.

Lemma contentOf_nil_iff (s : JSString.t) :
  contentOf s = [] <-> forallb ws s = true.
Proof.
  unfold contentOf, isContent.
  induction s as [| c s IH]; cbn [filter forallb]; [tauto |].
  destruct (ws c); cbn [negb andb]; [exact IH | split; discriminate].
Qed.

End TrimFacts.

(** X10: the chunk filter keeps exactly the chunks that have content: a
    chunk survives if and only if at least one of its code units is not
    white space (chunks made of spaces, tabs, line breaks, no-break spaces
    and the like are dropped, as is the empty chunk). *)
Theorem filterChunks_keeps_chunks_with_content (chunks : list JSString.t)
  (chunk : JSString.t) :
  In chunk (Upload.filterChunks chunks) <->
  In chunk chunks /\ exists c, In c chunk /\ JSString.isWhiteSpace c = false.
Proof.
  unfold Upload.filterChunks. rewrite filter_In.
  assert (H : (0 <? length (JSString.trim chunk)) = true <->
              exists c, In c chunk /\ JSString.isWhiteSpace c = false).
  { rewrite Nat.ltb_lt. split.
    - intros Hlen.
      assert (Hn : forallb JSString.isWhiteSpace chunk <> true).
      { intros Hall. apply trim_nil_iff in Hall. rewrite Hall in Hlen. cbn in Hlen. lia. }
      destruct (forallb JSString.isWhiteSpace chunk) eqn:E; [congruence |].
      assert (Hex : existsb (fun c => negb (JSString.isWhiteSpace c)) chunk = true).
      { clear -E. induction chunk as [| c s IH]; cbn in *; [discriminate |].
        destruct (JSString.isWhiteSpace c); cbn in *; [now apply IH | reflexivity]. }
      apply existsb_exists in Hex as [c [Hc Hw]]. exists c. split; [exact Hc |].
      now destruct (JSString.isWhiteSpace c).
    - intros [c [Hc Hw]].
      destruct (JSString.trim chunk) eqn:E; [| cbn; lia].
      apply trim_nil_iff in E. rewrite forallb_forall in E.
      rewrite (E c Hc) in Hw. discriminate. }
  now rewrite H.
Qed.

Section CleanFacts.

Local Abbreviation ws := JSString.isWhiteSpace.

Lemma spaced_collapse (s : JSString.t) :
  forall inRun, spaced inRun (JSString.collapseWhiteSpace inRun s) = true.
Proof.
  induction s as [| c s IH]; intros inRun; cbn [JSString.collapseWhiteSpace];
    [reflexivity |].
  destruct (ws c) eqn:E.
  - destruct inRun; [apply IH |]. cbn [spaced].
    change (ws 32) with true. cbn. apply IH.
  - cbn [spaced]. rewrite E. apply IH.
Qed.

Lemma spaced_trimStart (s : JSString.t) :
  forall b, spaced b s = true -> spaced true (JSString.trimStart s) = true.
Proof.
  induction s as [| c s IH]; intros b H; cbn [JSString.trimStart]; [reflexivity |].
  cbn [spaced] in H. destruct (ws c) eqn:E.
  - apply andb_prop in H as [_ H]. now apply (IH true).
  - cbn [spaced]. now rewrite E.
Qed.

Lemma singleSpaced_trimEndRec (s : JSString.t) :
  forall b, spaced b s = true ->
            trimEndRec s = [] \/ singleSpaced b (trimEndRec s) = true.
Proof.
  induction s as [| c s IH]; intros b H; cbn [trimEndRec]; [now left |].
  cbn [spaced] in H. destruct (ws c) eqn:E.
  - apply andb_prop in H as [H Hs]. apply andb_prop in H as [Hc Hb].
    destruct (IH true Hs) as [-> | Hr]; [now left |].
    destruct (trimEndRec s) as [| n l] eqn:Er; [now left |].
    right. cbn [singleSpaced]. rewrite E, Hc, Hb. exact Hr.
  - destruct (IH false H) as [-> | Hr].
    + right. cbn [singleSpaced]. now rewrite E.
    + destruct (trimEndRec s) as [| n l] eqn:Er.
      * right. cbn [singleSpaced]. now rewrite E.
      * right. cbn [singleSpaced]. rewrite E. exact Hr.
Qed.

Lemma isClean_trim_collapse (s : JSString.t) :
  isClean (JSString.trim (JSString.collapseWhiteSpace false s)) = true.
Proof.
  unfold JSString.trim. rewrite trimEnd_rec.
  pose proof (spaced_trimStart _ _ (spaced_collapse s false)) as H.
  destruct (singleSpaced_trimEndRec _ _ H) as [-> | Hr]; [reflexivity |].
  unfold isClean. destruct (trimEndRec _); [reflexivity | exact Hr].
Qed.

Lemma replaceCRLF_cons_cons (c d : N) (s : JSString.t) :
  JSString.replaceCRLF (c :: d :: s)
  = if ((c =? 13) && (d =? 10))%N then 10%N :: JSString.replaceCRLF s
    else c :: JSString.replaceCRLF (d :: s).
Proof. reflexivity. Qed.

Lemma contentOf_replaceCRLF_two (s : JSString.t) :
  contentOf (JSString.replaceCRLF s) = contentOf s /\
  forall c, contentOf (JSString.replaceCRLF (c :: s)) = contentOf (c :: s).
Proof.
  unfold contentOf, isContent.
  induction s as [| d s [IH1 IH2]]; [split; [reflexivity | intros c; reflexivity] |].
  split; [apply IH2 |].
  intros c. rewrite replaceCRLF_cons_cons.
  destruct ((c =? 13)%N && (d =? 10)%N) eqn:E.
  - apply andb_prop in E as [Ec Ed]. apply N.eqb_eq in Ec, Ed. subst c d.
    cbn [filter]. change (ws 10) with true.
    change (ws 13) with true. cbn [negb]. exact IH1.
  - change (c :: JSString.replaceCRLF (d :: s)) with ([c] ++ JSString.replaceCRLF (d :: s)).
    change (c :: d :: s) with ([c] ++ d :: s).
    rewrite !filter_app. f_equal. apply IH2.
Qed.

Lemma contentOf_replaceUnit (x y : N) (s : JSString.t) :
  ws x = true -> ws y = true ->
  contentOf (JSString.replaceUnit x y s) = contentOf s.
Proof.
  intros Hx Hy. unfold contentOf, isContent, JSString.replaceUnit.
  induction s as [| c s IH]; cbn [map filter]; [reflexivity |].
  destruct (N.eqb_spec c x) as [-> | Hne].
  - rewrite Hx, Hy. cbn [negb]. exact IH.
  - destruct (negb (ws c)); now rewrite IH.
Qed.

Lemma contentOf_collapse (s : JSString.t) :
  forall inRun, contentOf (JSString.collapseWhiteSpace inRun s) = contentOf s.
Proof.
  unfold contentOf, isContent.
  induction s as [| c s IH]; intros inRun; cbn [JSString.collapseWhiteSpace filter];
    [reflexivity |].
  destruct (ws c) eqn:E; cbn [negb].
  - destruct inRun; [apply IH |]. cbn [filter]. change (ws 32) with true.
    cbn [negb]. apply IH.
  - cbn [filter]. rewrite E. cbn [negb]. now rewrite IH.
Qed.

Lemma contentOf_cleanText (s : JSString.t) :
  contentOf (Upload.cleanText s) = contentOf s.
Proof.
  unfold Upload.cleanText.
  rewrite contentOf_trim, contentOf_collapse.
  rewrite !contentOf_replaceUnit by reflexivity.
  apply contentOf_replaceCRLF_two.
Qed.

(** A clean text is left as it is by every step of the cleaning. *)
Lemma singleSpaced_spaced (s : JSString.t) :
  forall b, singleSpaced b s = true -> spaced b s = true.
Proof.
  induction s as [| c s IH]; intros b H; cbn [spaced singleSpaced] in *;
    [reflexivity |].
  destruct (ws c).
  - apply andb_prop in H as [H Hs]. rewrite H. now apply IH.
  - now apply IH.
Qed.

Lemma spaced_only_spaces (s : JSString.t) :
  forall b, spaced b s = true -> Forall (fun c => ws c = true -> c = 32%N) s.
Proof.
  induction s as [| c s IH]; intros b H; cbn [spaced] in H; constructor.
  - intros Hc. rewrite Hc in H. apply andb_prop in H as [H _].
    apply andb_prop in H as [H _]. now apply N.eqb_eq.
  - destruct (ws c); [| now apply (IH false)].
    apply andb_prop in H as [_ H]. now apply (IH true).
Qed.

Lemma replaceUnit_absent (x y : N) (s : JSString.t) :
  Forall (fun c => c <> x) s -> JSString.replaceUnit x y s = s.
Proof.
  unfold JSString.replaceUnit. induction 1 as [| c s Hc _ IH]; cbn [map];
    [reflexivity |].
  destruct (N.eqb_spec c x); [contradiction | now rewrite IH].
Qed.

Lemma replaceCRLF_absent_two (s : JSString.t) :
  Forall (fun c => c <> 13%N) s ->
  JSString.replaceCRLF s = s /\
  forall c, c <> 13%N -> JSString.replaceCRLF (c :: s) = c :: s.
Proof.
  induction 1 as [| d s Hd _ [IH1 IH2]]; [split; [reflexivity | intros; reflexivity] |].
  split; [now apply IH2 |].
  intros c Hc. rewrite replaceCRLF_cons_cons.
  destruct (N.eqb_spec c 13); [contradiction |]. cbn [andb].
  now rewrite (IH2 d Hd).
Qed.

Lemma collapse_spaced (s : JSString.t) :
  forall b, spaced b s = true -> JSString.collapseWhiteSpace b s = s.
Proof.
  induction s as [| c s IH]; intros b H; cbn [JSString.collapseWhiteSpace];
    [reflexivity |].
  cbn [spaced] in H. destruct (ws c).
  - apply andb_prop in H as [H Hs]. apply andb_prop in H as [Hc Hb].
    apply N.eqb_eq in Hc. subst c. destruct b; [discriminate |].
    now rewrite (IH true Hs).
  - now rewrite (IH false H).
Qed.

Lemma trimEndRec_singleSpaced (s : JSString.t) :
  forall b, singleSpaced b s = true -> s <> [] -> trimEndRec s = s.
Proof.
  induction s as [| c s IH]; intros b H Hne; [contradiction |].
  cbn [trimEndRec]. cbn [singleSpaced] in H.
  destruct s as [| d s'].
  - cbn [trimEndRec]. destruct (ws c); [| reflexivity].
    apply andb_prop in H as [_ H]. discriminate.
  - assert (Hs : exists b', singleSpaced b' (d :: s') = true).
    { destruct (ws c); [| now exists false].
      apply andb_prop in H as [_ H]. now exists true. }
    destruct Hs as [b' Hs]. rewrite (IH b' Hs); [reflexivity | discriminate].
Qed.

Lemma cleanText_of_clean (s : JSString.t) :
  isClean s = true -> Upload.cleanText s = s.
Proof.
  intros H. destruct s as [| c s]; [reflexivity |]. unfold isClean in H.
  pose proof (singleSpaced_spaced _ _ H) as Hsp.
  pose proof (spaced_only_spaces _ _ Hsp) as Honly.
  assert (Hno : forall x, ws x = true -> x <> 32%N ->
                          Forall (fun u => u <> x) (c :: s)).
  { intros x Hx Hx32. rewrite Forall_forall in *. intros u Hu ->.
    exact (Hx32 (Honly x Hu Hx)). }
  unfold Upload.cleanText.
  rewrite (proj1 (replaceCRLF_absent_two _ (Hno 13%N eq_refl ltac:(discriminate)))).
  rewrite (replaceUnit_absent 13 10 _ (Hno 13%N eq_refl ltac:(discriminate))).
  rewrite (replaceUnit_absent 9 32 _ (Hno 9%N eq_refl ltac:(discriminate))).
  rewrite (collapse_spaced _ false).
  - unfold JSString.trim. rewrite trimEnd_rec.
    assert (Hstart : JSString.trimStart (c :: s) = c :: s).
    { cbn [JSString.trimStart]. cbn [singleSpaced] in H.
      destruct (ws c); [| reflexivity].
      apply andb_prop in H as [H _]. apply andb_prop in H as [_ H]. discriminate. }
    rewrite Hstart. apply (trimEndRec_singleSpaced _ true H). discriminate.
  - cbn [spaced singleSpaced] in *. destruct (ws c); [| exact Hsp].
    apply andb_prop in H as [H _]. apply andb_prop in H as [_ H]. discriminate.
Qed.

End CleanFacts.

(** X11: the cleaned text is in normal form and keeps the content.  For
    every extracted text, [cleanText] returns a text whose only white space
    is the single space U+0020 between two other code units (no tab, line
    break or other white space, no two spaces in a row, none at either
    end), and the code units that are not white space are those of the
    input, in the same order. *)
Theorem cleanText_is_clean_and_keeps_content (extractedText : JSString.t) :
  isClean (Upload.cleanText extractedText) = true /\
  contentOf (Upload.cleanText extractedText) = contentOf extractedText.
Proof.
  split; [apply isClean_trim_collapse | apply contentOf_cleanText].
Qed.

(** X12: the texts that cleaning leaves unchanged are exactly the clean
    ones, so cleaning twice is cleaning once. *)
Theorem cleanText_fixed_points (text : JSString.t) :
  (Upload.cleanText text = text <-> isClean text = true) /\
  Upload.cleanText (Upload.cleanText text) = Upload.cleanText text.
Proof.
  split.
  - split.
    + intros <-. apply isClean_trim_collapse.
    + apply cleanText_of_clean.
  - apply cleanText_of_clean, isClean_trim_collapse.
Qed.

(* ----------------------------------------------------------------- *)
(** ** The upload route as a whole *)

(** The embeddings with which the route goes on after the first [try]. *)
Lemma finish_eq (env : Upload.Env) (store : Store) (file : Upload.File)
  (cleanedText : JSString.t) (chunks : list JSString.t) :
  exists embeddings response,
    (Upload.generateEmbeddings env chunks = Normal embeddings \/
     (exists e, Upload.generateEmbeddings env chunks = Throw e) /\ embeddings = []) /\
    Upload.finish env store file cleanedText chunks
    = ({| Upload.status := 200; Upload.body := Upload.UploadBody response |},
       snd (Upload.saveDocument env store file cleanedText chunks embeddings)) /\
    Upload.documentId response
    = fst (Upload.saveDocument env store file cleanedText chunks embeddings) /\
    Upload.chunks response = chunks /\
    Upload.resp_embeddings response = embeddings /\
    Upload.chunkCount response = length chunks /\
    Upload.embeddingCount response = length embeddings.
Proof.
  unfold Upload.finish.
  destruct (Upload.generateEmbeddings env chunks) as [embeddings | e] eqn:Hgen.
  - exists embeddings.
    destruct (Upload.saveDocument env store file cleanedText chunks embeddings)
      as [documentId store'] eqn:Hsave.
    eexists. split; [now left |]. split; [reflexivity |]. cbn. now repeat split.
  - exists [].
    destruct (Upload.saveDocument env store file cleanedText chunks [])
      as [documentId store'] eqn:Hsave.
    eexists. split; [right; split; [now exists e | reflexivity] |].
    split; [reflexivity |]. cbn. now repeat split.
Qed.

Lemma saveDocument_cases (env : Upload.Env) (store : Store) (file : Upload.File)
  (cleanedText : JSString.t) (chunks : list JSString.t)
  (embeddings : list (list float)) :
  Upload.saveDocument env store file cleanedText chunks embeddings = (None, store) \/
  exists email id,
    Upload.truthy (Upload.sessionEmail env) = Some email /\
    Upload.Document_create env
      (Upload.documentData env email file cleanedText chunks embeddings)
    = Normal id /\
    Upload.saveDocument env store file cleanedText chunks embeddings
    = (Some id,
       store ++ [Upload.withId id
                   (Upload.documentData env email file cleanedText chunks embeddings)]).
Proof.
  unfold Upload.saveDocument, Upload.requireSession.
  destruct (Upload.truthy (Upload.sessionEmail env)) as [email |] eqn:Hs;
    [| now left].
  destruct (Upload.Document_create env _) as [id | e] eqn:Hc; [| now left].
  right. now exists email, id.
Qed.

Lemma extractText_rejects_with_400 (env : Upload.Env) (file : Upload.File)
  (response : Upload.Response) :
  Upload.extractText env file = inl response -> Upload.status response = 400%Z.
Proof.
  unfold Upload.extractText.
  destruct (JSString.eqb (Upload.type file) Upload.pdfType).
  - destruct (Upload.parsePDF env); intros [= <-]; reflexivity.
  - destruct (JSString.eqb (Upload.type file) Upload.plainType); [discriminate |].
    destruct (JSString.eqb (Upload.type file) Upload.docxType); [| discriminate].
    destruct (Upload.extractRawText env); intros [= <-]; reflexivity.
Qed.

(** An early response is a 400 of one of the checks or the 500 of the
    outer [catch]. *)
Lemma prepare_rejects_with_400_or_500 (env : Upload.Env)
  (response : Upload.Response) :
  Upload.prepare env = inl response ->
  Upload.status response = 400%Z \/ response = Upload.processingError.
Proof.
  unfold Upload.prepare.
  destruct (Upload.formFile env) as [[file |] | e];
    [| intros [= <-]; now left | intros [= <-]; now right].
  destruct (negb (existsb _ _)); [intros [= <-]; now left |].
  destruct (Upload.maxSize <? Upload.size file)%Z; [intros [= <-]; now left |].
  destruct (Upload.arrayBuffer env); [| intros [= <-]; now right].
  destruct (Upload.extractText env file) as [r | text] eqn:E.
  - intros [= <-]. left. now apply (extractText_rejects_with_400 env file).
  - destruct (length (JSString.trim text) =? 0); [intros [= <-]; now left |].
    destruct (Upload.splitText env (Upload.cleanText text));
      [discriminate | intros [= <-]; now right].
Qed.

(** X13: an upload only ever appends one document of the session's user.
    Whatever the request and the collaborators answer, the collection after
    [POST] is the collection before, unchanged, or the collection before
    followed by one new document; that document belongs to the session's
    user, carries the id reported in the response, and holds the chunks and
    the embeddings that the response reports, with the counts of its
    metadata equal to their numbers.  The route answers 200, 400 or 500;
    a response other than 200 (a 400 of one of the checks, or the 500 of
    the outer [catch] when reading the form, reading the file or splitting
    the text fails) leaves the collection unchanged. *)
Theorem upload_appends_one_own_document (env : Upload.Env) (store : Store) :
  (snd (Upload.POST env store) = store \/
   exists d response,
     Upload.POST env store
     = ({| Upload.status := 200; Upload.body := Upload.UploadBody response |},
        store ++ [d]) /\
     Upload.truthy (Upload.sessionEmail env) = Some (IDocument.userId d) /\
     Upload.documentId response = Some (IDocument._id d) /\
     IDocument.chunks d = Upload.chunks response /\
     IDocument.embeddings d = Upload.resp_embeddings response /\
     Metadata.chunkCount (IDocument.metadata d) = length (IDocument.chunks d) /\
     Metadata.embeddingCount (IDocument.metadata d)
     = length (IDocument.embeddings d)) /\
  (Upload.status (fst (Upload.POST env store)) <> 200%Z ->
   snd (Upload.POST env store) = store) /\
  In (Upload.status (fst (Upload.POST env store))) [200; 400; 500]%Z /\
  (forall error : Thrown,
      Upload.formFile env = Throw error \/
      Upload.arrayBuffer env = Throw error \/
      (forall text, Upload.splitText env text = Throw error) ->
      Upload.status (fst (Upload.POST env store)) <> 200%Z /\
      snd (Upload.POST env store) = store).
Proof.
  unfold Upload.POST.
  destruct (Upload.prepare env) as [response | [[file cleanedText] chunks]] eqn:Hprep.
  - split; [now left |]. split; [reflexivity |]. cbn [fst snd].
    destruct (prepare_rejects_with_400_or_500 env response Hprep) as [H | ->].
    + rewrite H. split; [cbn; tauto |]. intros _ _. split; [lia | reflexivity].
    + split; [cbn; tauto |]. intros _ _. split; [cbn; lia | reflexivity].
  - destruct (finish_eq env store file cleanedText chunks)
      as [embeddings [response [_ [-> [Hid [Hch [Hemb _]]]]]]].
    split; [| split; [cbn; congruence | split; [cbn; tauto |]]].
    + destruct (saveDocument_cases env store file cleanedText chunks embeddings)
        as [Hsave | [email [id [Hs [Hc Hsave]]]]]; rewrite Hsave in *;
        cbn [fst snd] in *.
      * now left.
      * right. eexists _, response. split; [reflexivity |].
        cbn. now repeat split.
    + intros error Hfail. exfalso. revert Hprep. unfold Upload.prepare.
      destruct Hfail as [-> | [Hbuf | Hsplit]]; [discriminate | |].
      * destruct (Upload.formFile env) as [[f |] | e]; try discriminate.
        destruct (negb (existsb _ _)); [discriminate |].
        destruct (Upload.maxSize <? Upload.size f)%Z; [discriminate |].
        rewrite Hbuf. discriminate.
      * destruct (Upload.formFile env) as [[f |] | e]; try discriminate.
        destruct (negb (existsb _ _)); [discriminate |].
        destruct (Upload.maxSize <? Upload.size f)%Z; [discriminate |].
        destruct (Upload.arrayBuffer env); [| discriminate].
        destruct (Upload.extractText env f) as [r | text]; [discriminate |].
        destruct (length (JSString.trim text) =? 0); [discriminate |].
        rewrite Hsplit. discriminate.
Qed.

(** X14: an upload is invisible to the other users: for every user other
    than the one of the session, every search gives the same outcome after
    the upload as before. *)
Theorem upload_is_invisible_to_other_users (env : Upload.Env) (store : Store)
  (other : JSString.t) (queryEmbedding : list float) (limit : Z)
  (threshold : float) :
  Upload.truthy (Upload.sessionEmail env) <> Some other ->
  searchSimilarDocuments queryEmbedding other limit threshold
    (snd (Upload.POST env store))
  = searchSimilarDocuments queryEmbedding other limit threshold store.
Proof.
  intros Hother. unfold Upload.POST.
  destruct (Upload.prepare env) as [response | [[file cleanedText] chunks]] eqn:Hprep;
    [reflexivity |].
  destruct (finish_eq env store file cleanedText chunks)
    as [embeddings [response [_ [-> _]]]]. cbn [snd].
  destruct (saveDocument_cases env store file cleanedText chunks embeddings)
    as [Hsave | [email [id [Hs [Hc Hsave]]]]]; rewrite Hsave; cbn [snd];
    [reflexivity |].
  unfold searchSimilarDocuments, Document_find. rewrite filter_app. cbn [filter].
  cbn [Upload.withId Upload.documentData IDocument.userId].
  destruct (JSString.eqb email other) eqn:E.
  - apply JSString_eqb_eq in E. congruence.
  - now rewrite app_nil_r.
Qed.

Lemma upload_is_invisible_to_other_users_witness :
  searchSimilarDocuments [1; 0]%float Sample.bob 5 0.5%float
    (snd (Upload.POST
            (Sample.upload (Some Sample.alice) (Normal (JSString.lit "doc1")))
            Sample.store))
  = searchSimilarDocuments [1; 0]%float Sample.bob 5 0.5%float Sample.store.
Proof.
  apply upload_is_invisible_to_other_users. cbn. discriminate.
Defined.

(** X15: an upload that reaches the embedding step has content.  Whenever
    the route gets past its checks, the file is the form's file, of one of
    the three allowed types and of at most 10 MiB, its bytes were read, the
    cleaned text is not empty and is clean, the chunks are what the
    splitter made of the cleaned text, filtered, and every chunk handed on
    has at least one code unit that is not white space. *)
Theorem accepted_upload_has_clean_content (env : Upload.Env)
  (file : Upload.File) (cleanedText : JSString.t) (chunks : list JSString.t) :
  Upload.prepare env = inr (file, cleanedText, chunks) ->
  Upload.formFile env = Normal (Some file) /\
  In (Upload.type file) Upload.allowedTypes /\
  (Upload.size file <= 10 * 1024 * 1024)%Z /\
  Upload.arrayBuffer env = Normal tt /\
  cleanedText <> [] /\
  isClean cleanedText = true /\
  (exists split,
      Upload.splitText env cleanedText = Normal split /\
      chunks = Upload.filterChunks split) /\
  Forall (fun chunk => exists c, In c chunk /\ JSString.isWhiteSpace c = false)
    chunks.
Proof.
  unfold Upload.prepare.
  destruct (Upload.formFile env) as [[f |] | e]; try discriminate.
  destruct (existsb (JSString.eqb (Upload.type f)) Upload.allowedTypes) eqn:Ety;
    cbn [negb]; [| discriminate].
  destruct (Z.ltb_spec Upload.maxSize (Upload.size f)) as [| Hsize]; [discriminate |].
  destruct (Upload.arrayBuffer env) as [[] | e]; [| discriminate].
  destruct (Upload.extractText env f) as [r | extractedText]; [discriminate |].
  destruct (Nat.eqb_spec (length (JSString.trim extractedText)) 0) as [| Hlen];
    [discriminate |].
  destruct (Upload.splitText env (Upload.cleanText extractedText))
    as [split | e] eqn:Hsplit; [| discriminate].
  intros [= <- <- <-].
  split; [reflexivity |]. split.
  { apply existsb_exists in Ety as [ty [Hin Heq]].
    apply JSString_eqb_eq in Heq. now rewrite Heq. }
  split; [exact Hsize |]. split; [reflexivity |]. split.
  { intros Hnil.
    assert (Hc : contentOf extractedText = []).
    { rewrite <- contentOf_cleanText, Hnil. reflexivity. }
    apply contentOf_nil_iff, trim_nil_iff in Hc. rewrite Hc in Hlen. now apply Hlen. }
  split; [apply isClean_trim_collapse |].
  split; [exists split; now split |].
  rewrite Forall_forall. intros chunk Hchunk. unfold Upload.filterChunks in Hchunk.
  apply filter_In in Hchunk as [_ Hlen'].
  destruct (forallb JSString.isWhiteSpace chunk) eqn:E.
  - apply trim_nil_iff in E. rewrite E in Hlen'. discriminate.
  - clear -E. induction chunk as [| c s IH]; cbn in E; [discriminate |].
    destruct (JSString.isWhiteSpace c) eqn:Ec; cbn in E.
    + destruct (IH E) as [u [Hu Hw]]. exists u. split; [now right | exact Hw].
    + exists c. split; [now left | exact Ec].
Qed.

Lemma accepted_upload_has_clean_content_witness :
  JSString.lit "aa bb" <> [] /\ isClean (JSString.lit "aa bb") = true.
Proof.
  destruct (accepted_upload_has_clean_content
              (Sample.upload (Some Sample.alice) (Normal (JSString.lit "doc1")))
              Sample.uploadedFile (JSString.lit "aa bb") [JSString.lit "aa bb"]
              eq_refl)
    as [_ [_ [_ [_ [Hne [Hclean _]]]]]].
  split; [exact Hne | exact Hclean].
Defined.

Lemma generateEmbeddings_inv (env : Upload.Env) (chunks : list JSString.t)
  (embeddings : list (list float)) :
  Upload.generateEmbeddings env chunks = Normal embeddings ->
  exists email user key response,
    Upload.truthy (Upload.sessionEmail env) = Some email /\
    Upload.User_findOne env email = Normal (Some user) /\
    Upload.truthy (Upload.geminiApiKey user) = Some key /\
    Upload.embedContent env key chunks = Normal response /\
    embeddings = match Upload.embeddings response with
                 | Some es => map Upload.normalizeEmbedding es
                 | None => []
                 end.
Proof.
  unfold Upload.generateEmbeddings, Upload.requireSession.
  destruct (Upload.truthy (Upload.sessionEmail env)) as [email |] eqn:Hs;
    [| discriminate].
  cbn [bind]. destruct (Upload.dbConnect env); [| discriminate]. cbn [bind].
  destruct (Upload.User_findOne env email) as [[user |] | e] eqn:Hu; cbn [bind];
    try discriminate.
  destruct (Upload.truthy (Upload.geminiApiKey user)) as [key |] eqn:Hk;
    cbn [bind]; [| discriminate].
  destruct (Upload.embedContent env key chunks) as [response | e] eqn:He;
    cbn [bind]; [| discriminate].
  intros [= <-]. now exists email, user, key, response.
Qed.

(** X16: uploads keep the dimension fixed.  If the embedding service only
    answers vectors of at least 768 components, then a collection whose
    embeddings all have 768 components still has that property after any
    upload, and so every search with a query of 768 components finds
    matching dimensions and does not throw. *)
Theorem upload_keeps_dimension_768 (env : Upload.Env) (store : Store) :
  (forall key chunks response es,
      Upload.embedContent env key chunks = Normal response ->
      Upload.embeddings response = Some es ->
      Forall (fun e => 768 <= length (rawValues e)) es) ->
  Forall (fun d => Forall (fun e => length e = 768) (IDocument.embeddings d))
    store ->
  Forall (fun d => Forall (fun e => length e = 768) (IDocument.embeddings d))
    (snd (Upload.POST env store)) /\
  forall (queryEmbedding : list float) (userId : JSString.t) (limit : Z)
         (threshold : float),
    length queryEmbedding = 768 ->
    exists out,
      searchSimilarDocuments queryEmbedding userId limit threshold
        (snd (Upload.POST env store)) = Normal out.
Proof.
  intros Hservice Hstore.
  assert (Hafter : Forall (fun d => Forall (fun e => length e = 768)
                                      (IDocument.embeddings d))
                     (snd (Upload.POST env store))).
  { unfold Upload.POST.
    destruct (Upload.prepare env) as [response | [[file cleanedText] chunks]];
      [exact Hstore |].
    destruct (finish_eq env store file cleanedText chunks)
      as [embeddings [response [Hgen [-> _]]]]. cbn [snd].
    destruct (saveDocument_cases env store file cleanedText chunks embeddings)
      as [Hsave | [email [id [Hs [Hc Hsave]]]]]; rewrite Hsave; cbn [snd];
      [exact Hstore |].
    apply Forall_app. split; [exact Hstore |]. constructor; [| constructor].
    cbn [Upload.withId Upload.documentData IDocument.embeddings].
    destruct Hgen as [Hgen | [_ ->]]; [| constructor].
    apply generateEmbeddings_inv in Hgen
      as [email' [user [key [resp [_ [_ [_ [He ->]]]]]]]].
    destruct (Upload.embeddings resp) as [es |] eqn:Ees; [| constructor].
    specialize (Hservice key chunks resp es He Ees).
    rewrite Forall_forall in *. intros v Hv.
    apply in_map_iff in Hv as [e [<- Hin]].
    rewrite normalizeEmbedding_eq, length_map, length_firstn.
    specialize (Hservice e Hin). cbn beta in Hservice. lia. }
  split; [exact Hafter |].
  intros queryEmbedding userId limit threshold Hq. eexists.
  apply search_match. unfold dimensionsMatch.
  rewrite Forall_forall in *. intros d Hd. apply Document_find_In in Hd as [Hd _].
  specialize (Hafter d Hd). rewrite Forall_forall in *.
  intros e He. rewrite Hq. now apply Hafter.
Qed.

Lemma upload_keeps_dimension_768_witness :
  Forall (fun d => Forall (fun e => length e = 768) (IDocument.embeddings d))
    (snd (Upload.POST
            (Sample2.uploadWithKey (Some Sample.alice) (Normal (JSString.lit "doc1")))
            [])).
Proof.
  apply (upload_keeps_dimension_768
           (Sample2.uploadWithKey (Some Sample.alice) (Normal (JSString.lit "doc1")))
           []).
  - intros key chunks response es [= <-] [= <-].
    rewrite Forall_forall. intros e He.
    apply in_map_iff in He as [c [<- _]]. vm_compute. lia.
  - constructor.
Defined.

(* ----------------------------------------------------------------- *)
(** ** The Gemini API key route *)

Section KeyRouteFacts.

Variable castEmail : JSString.t -> JSString.t.
Variable castKey : JSString.t -> JSString.t.

Local Abbreviation findOne := (GeminiKeyRoute.findOne castEmail).
Local Abbreviation findOneAndUpdate := (GeminiKeyRoute.findOneAndUpdate castEmail).
Local Abbreviation POST := (GeminiKeyRoute.POST castEmail castKey).
Local Abbreviation GET := (GeminiKeyRoute.GET castEmail).
Local Abbreviation DELETE := (GeminiKeyRoute.DELETE castEmail).


Lemma findOneAndUpdate_setKey (email : JSString.t) (key : option JSString.t)
  (users : GeminiKeyRoute.Users) :
  (findOne email users = None /\
   findOneAndUpdate email (GeminiKeyRoute.setKey key) users = (None, users)) \/
  exists before u after,
    users = before ++ u :: after /\
    Upload.email u = castEmail email /\
    Forall (fun v => Upload.email v <> castEmail email) before /\
    findOneAndUpdate email (GeminiKeyRoute.setKey key) users
    = (Some (GeminiKeyRoute.setKey key u),
       before ++ GeminiKeyRoute.setKey key u :: after).
Proof.
  induction users as [| x users IH];
    cbn [GeminiKeyRoute.findOneAndUpdate GeminiKeyRoute.findOne find];
    [now left |].
  destruct (JSString.eqb (Upload.email x) (castEmail email)) eqn:E.
  - right. exists [], x, users. apply JSString_eqb_eq in E.
    repeat split; [exact E | constructor].
  - destruct IH as [[Hnone ->] | [before [u [after [-> [Hu [Hb ->]]]]]]].
    + left. split; [exact Hnone | reflexivity].
    + right. exists (x :: before), u, after. repeat split; [exact Hu |].
      constructor; [| exact Hb]. intros Hx. apply JSString_eqb_eq in Hx. congruence.
Qed.


(** X17: without a session the three handlers of the key route answer 401
    and touch nothing; and whenever [POST] or [DELETE] answer anything but
    200 (no session, no key in the body, database failure, unknown user)
    the users collection is left as it was. *)
Theorem key_route_failures_change_nothing (request : GeminiKeyRoute.Request)
  (users : GeminiKeyRoute.Users) :
  (Upload.truthy (GeminiKeyRoute.sessionEmail request) = None ->
   POST request users = (GeminiKeyRoute.errorResponse "Unauthorized" 401, users) /\
   GET request users = GeminiKeyRoute.errorResponse "Unauthorized" 401 /\
   DELETE request users = (GeminiKeyRoute.errorResponse "Unauthorized" 401, users)) /\
  (GeminiKeyRoute.status (fst (POST request users)) <> 200%Z ->
   snd (POST request users) = users) /\
  (GeminiKeyRoute.status (fst (DELETE request users)) <> 200%Z ->
   snd (DELETE request users) = users).
Proof.
  unfold GeminiKeyRoute.POST, GeminiKeyRoute.GET, GeminiKeyRoute.DELETE.
  split; [intros ->; now repeat split |].
  destruct (Upload.truthy (GeminiKeyRoute.sessionEmail request)) as [email |];
    [| split; reflexivity].
  split.
  - destruct (GeminiKeyRoute.json request) as [k |]; [| reflexivity].
    destruct (Upload.truthy k) as [key |]; [| reflexivity].
    destruct (GeminiKeyRoute.dbConnect request); [| reflexivity].
    destruct (findOneAndUpdate_setKey email (Some (castKey key)) users)
      as [[_ ->] | [before [u [after [-> [_ [_ ->]]]]]]]; [reflexivity |].
    cbn. congruence.
  - destruct (GeminiKeyRoute.dbConnect request); [| reflexivity].
    destruct (findOneAndUpdate_setKey email None users)
      as [[_ ->] | [before [u [after [-> [_ [_ ->]]]]]]]; [reflexivity |].
    cbn. congruence.
Qed.

(** X18: saving or deleting a key touches only the record of the session's
    user: after [POST] and after [DELETE] the collection has the same
    emails in the same order, and the record of every user with another
    email is, at its position, exactly what it was. *)
Theorem key_route_touches_only_own_record (request : GeminiKeyRoute.Request)
  (users : GeminiKeyRoute.Users) (email : JSString.t) :
  Upload.truthy (GeminiKeyRoute.sessionEmail request) = Some email ->
  forall users',
    users' = snd (POST request users) \/ users' = snd (DELETE request users) ->
    map Upload.email users' = map Upload.email users /\
    forall i u, nth_error users i = Some u ->
                Upload.email u <> castEmail email ->
                nth_error users' i = Some u.
Proof.
  intros Hs users' Hu.
  assert (Hupd : forall key,
             let r := snd (findOneAndUpdate email (GeminiKeyRoute.setKey key) users) in
             map Upload.email r = map Upload.email users /\
             forall i u, nth_error users i = Some u ->
                         Upload.email u <> castEmail email ->
                         nth_error r i = Some u).
  { intros key.
    destruct (findOneAndUpdate_setKey email key users)
      as [[_ ->] | [before [x [after [-> [Hx [_ ->]]]]]]]; cbn [snd];
      [split; auto |].
    split; [now rewrite !map_app |].
    intros i u Hi Hne.
    destruct (Nat.lt_trichotomy i (length before)) as [Hlt | [-> | Hgt]].
    - rewrite nth_error_app1 in * by exact Hlt. exact Hi.
    - rewrite nth_error_app2, Nat.sub_diag in Hi by lia. cbn in Hi.
      injection Hi as <-. contradiction.
    - rewrite nth_error_app2 in * by lia.
      destruct (i - length before) as [| k] eqn:Ek; [lia | exact Hi]. }
  assert (Hsame : map Upload.email users = map Upload.email users /\
                  forall i u, nth_error users i = Some u ->
                              Upload.email u <> castEmail email ->
                              nth_error users i = Some u) by (split; auto).
  destruct Hu as [-> | ->];
    unfold GeminiKeyRoute.POST, GeminiKeyRoute.DELETE; rewrite Hs.
  - destruct (GeminiKeyRoute.json request) as [k |]; [| exact Hsame].
    destruct (Upload.truthy k) as [key |]; [| exact Hsame].
    destruct (GeminiKeyRoute.dbConnect request); [| exact Hsame].
    specialize (Hupd (Some (castKey key))). cbn zeta in Hupd.
    destruct (findOneAndUpdate email _ users) as [[updated |] r];
      [exact Hupd | exact Hsame].
  - destruct (GeminiKeyRoute.dbConnect request); [| exact Hsame].
    specialize (Hupd None). cbn zeta in Hupd.
    destruct (findOneAndUpdate email _ users) as [[updated |] r];
      [exact Hupd | exact Hsame].
Qed.



End KeyRouteFacts.

Lemma key_route_touches_only_own_record_witness :
  nth_error
    (snd (GeminiKeyRoute.POST (fun e => e) JSString.trim
            (Sample2.keyRequest (Some Sample.alice) " ka ") Sample2.users)) 1
  = Some {| Upload.email := Sample.bob;
            Upload.geminiApiKey := Some (JSString.lit "kb") |}.
Proof.
  apply (key_route_touches_only_own_record (fun e => e) JSString.trim
           (Sample2.keyRequest (Some Sample.alice) " ka ") Sample2.users
           Sample.alice eq_refl _ (or_introl eq_refl)).
  - reflexivity.
  - cbn. discriminate.
Defined.



(* ----------------------------------------------------------------- *)
(** ** The chat page *)

(** X21: the page and the server agree on what may be uploaded.  When
    [handleFileSelect] hands a file to the upload, it is the first of the
    chosen files, all chosen files were added to the selection, and the
    server's route, given that file, passes its type and size checks and
    goes on to read the file and extract the text; when it hands no file,
    the selection is unchanged. *)
Theorem selected_file_passes_server_checks (files selectedFiles : list Upload.File)
  (env : Upload.Env) :
  (snd (ChatPage.handleFileSelect files selectedFiles) = None ->
   fst (ChatPage.handleFileSelect files selectedFiles) = selectedFiles) /\
  forall file,
    snd (ChatPage.handleFileSelect files selectedFiles) = Some file ->
    hd_error files = Some file /\
    fst (ChatPage.handleFileSelect files selectedFiles) = selectedFiles ++ files /\
    (Upload.formFile env = Normal (Some file) ->
     Upload.prepare env
     = match Upload.arrayBuffer env with
       | Throw _ => inl Upload.processingError
       | Normal _ =>
           match Upload.extractText env file with
           | inl response => inl response
           | inr extractedText =>
               if (length (JSString.trim extractedText) =? 0)%nat
               then inl (Upload.errorResponse
                           "No text content could be extracted from the file."
                           400)
               else
                 match Upload.splitText env (Upload.cleanText extractedText) with
                 | Throw _ => inl Upload.processingError
                 | Normal chunks =>
                     inr (file, Upload.cleanText extractedText,
                          Upload.filterChunks chunks)
                 end
           end
       end).
Proof.
  unfold ChatPage.handleFileSelect.
  destruct files as [| f files]; [split; [reflexivity | discriminate] |].
  destruct (negb (existsb (JSString.eqb (Upload.type f)) ChatPage.allowedTypes))
    eqn:Ety; [split; [reflexivity | discriminate] |].
  destruct (ChatPage.maxSize <? Upload.size f)%Z eqn:Esz;
    [split; [reflexivity | discriminate] |].
  split; [discriminate |]. intros file [= <-].
  split; [reflexivity |]. split; [reflexivity |].
  intros Hform. unfold Upload.prepare. rewrite Hform.
  change Upload.allowedTypes with ChatPage.allowedTypes.
  change Upload.maxSize with ChatPage.maxSize.
  now rewrite Ety, Esz.
Qed.

Lemma filterFrom_remove {A : Type} (index : nat) (l : list A) :
  forall i, i <= index ->
    ChatPage.filterFrom (fun _ j => negb (j =? index)) i l
    = firstn (index - i) l ++ skipn (S (index - i)) l.
Proof.
  induction l as [| x l IH]; intros i Hi; cbn [ChatPage.filterFrom].
  - now rewrite firstn_nil, skipn_nil.
  - destruct (Nat.eqb_spec i index) as [-> | Hne]; cbn [negb].
    + rewrite Nat.sub_diag. cbn [firstn skipn app].
      clear IH. assert (H : forall j, index < j ->
          ChatPage.filterFrom (fun (_ : A) k => negb (k =? index)) j l = l).
      { clear. induction l as [| y l IH]; intros j Hj; cbn [ChatPage.filterFrom];
          [reflexivity |].
        destruct (Nat.eqb_spec j index); [lia |]. cbn [negb].
        now rewrite IH by lia. }
      apply H. lia.
    + rewrite (IH (S i)) by lia.
      replace (index - i) with (S (index - S i)) by lia. reflexivity.
Qed.

(** X22: [removeFile] removes the file at the given position and nothing
    else: the files before it and after it stay in order, so the selection
    gets one file shorter; a position beyond the end removes nothing. *)
Theorem removeFile_removes_one_position (index : nat) (files : list Upload.File) :
  ChatPage.removeFile index files
  = firstn index files ++ skipn (S index) files /\
  (index < length files ->
   S (length (ChatPage.removeFile index files)) = length files) /\
  (length files <= index -> ChatPage.removeFile index files = files).
Proof.
  assert (H : ChatPage.removeFile index files
              = firstn index files ++ skipn (S index) files).
  { unfold ChatPage.removeFile. rewrite (filterFrom_remove index files 0) by lia.
    now rewrite Nat.sub_0_r. }
  split; [exact H |]. rewrite H. split.
  - intros Hlt. rewrite length_app, length_firstn, length_skipn. lia.
  - intros Hge. rewrite firstn_all2 by exact Hge.
    rewrite skipn_all2 by lia. apply app_nil_r.
Qed.

(* ----------------------------------------------------------------- *)
(** ** The callbacks of the authentication *)

Section AuthFacts.

Variable castEmail : JSString.t -> JSString.t.

Variable castName : JSString.t -> JSString.t.




(** X23: the key flag of the session is the one the key route reports.
    For a session with an email, the [session] callback sets
    [hasGeminiApiKey] to the [hasApiKey] that [GET] answers for the same
    user and database, and to [false] whenever [GET] answers an error
    (unknown user, database failure). *)
Theorem session_flag_agrees_with_key_route (user : Auth.SessionUser)
  (tokenUserId : option JSString.t) (request : GeminiKeyRoute.Request)
  (users : GeminiKeyRoute.Users) (sessionEmail : JSString.t) :
  Upload.truthy (Auth.email user) = Some sessionEmail ->
  GeminiKeyRoute.sessionEmail request = Auth.email user ->
  Auth.hasGeminiApiKey
    (Auth.session castEmail user tokenUserId
       (GeminiKeyRoute.dbConnect request) users)
  = Some match GeminiKeyRoute.body (GeminiKeyRoute.GET castEmail request users) with
         | GeminiKeyRoute.StatusBody hasApiKey => hasApiKey
         | _ => false
         end.
Proof.
  intros Hemail Hreq. unfold Auth.session, GeminiKeyRoute.GET.
  cbn [Auth.hasGeminiApiKey]. rewrite Hreq, Hemail.
  destruct (GeminiKeyRoute.dbConnect request); [| reflexivity].
  destruct (GeminiKeyRoute.findOne castEmail sessionEmail users); reflexivity.
Qed.


End AuthFacts.

Lemma session_flag_agrees_with_key_route_witness :
  Auth.hasGeminiApiKey
    (Auth.session (fun e => e)
       {| Auth.id := []; Auth.email := Some Sample.bob;
          Auth.hasGeminiApiKey := None |}
       None (Normal tt) Sample2.users)
  = Some true.
Proof.
  apply (session_flag_agrees_with_key_route (fun e => e)
           {| Auth.id := []; Auth.email := Some Sample.bob;
              Auth.hasGeminiApiKey := None |}
           None (Sample2.keyRequest (Some Sample.bob) "") Sample2.users
           Sample.bob eq_refl eq_refl).
Defined.

(* ----------------------------------------------------------------- *)
(** ** Search: the threshold *)

Section ThresholdFacts.

Local Open Scope float_scope.

Lemma leb_not_ltb (z x : float) : (z <=? x) = true -> (x <? z) = false.
Proof.
  rewrite leb_spec, ltb_spec. unfold SFleb, SFltb.
  rewrite (SFcompare_antisym (Prim2SF z) (Prim2SF x)).
  destruct (SFcompare (Prim2SF z) (Prim2SF x)) as [[] |]; cbn; congruence.
Qed.

Lemma SFcompare_refl (x : spec_float) :
  SFisNaN x = false -> SFcompare x x = Some Eq.
Proof.
  destruct x as [s | s | | s m e]; cbn; try reflexivity; try discriminate.
  - now destruct s.
  - intros _. rewrite Z.compare_refl.
    change (Pos.compare_cont Eq m m) with (Pos.compare m m).
    rewrite Pos.compare_refl. now destruct s.
Qed.

Lemma leb_is_number (t x : float) : (t <=? x) = true -> (x =? x) = true.
Proof.
  rewrite leb_spec, eqb_spec. intros H.
  apply SFleb_not_nan in H as [_ H]. unfold SFeqb.
  now rewrite (SFcompare_refl _ H).
Qed.

Lemma nan_leb (t x : float) : (t =? t) = false -> (t <=? x) = false.
Proof.
  rewrite eqb_spec, leb_spec. unfold SFeqb, SFleb. intros H.
  destruct (Prim2SF t) as [s | s | | s m e] eqn:E; try reflexivity;
    rewrite SFcompare_refl in H by reflexivity; discriminate.
Qed.

Variable queryEmbedding : list float.

Lemma filter_filter_implied {A : Type} (p q : A -> bool) (l : list A) :
  (forall x, q x = true -> p x = true) ->
  filter q (filter p l) = filter q l.
Proof.
  intros H. induction l as [| x l IH]; cbn [filter]; [reflexivity |].
  destruct (p x) eqn:Ep; cbn [filter]; [now rewrite IH |].
  destruct (q x) eqn:Eq; [| exact IH]. rewrite (H x Eq) in Ep. discriminate.
Qed.

Lemma keptPairs_raise (threshold1 threshold2 : float) (documents : list IDocument.t) :
  (threshold1 <=? threshold2) = true ->
  keptPairs queryEmbedding threshold2 documents
  = filter (fun r => threshold2 <=? SearchResult.similarity r)
      (keptPairs queryEmbedding threshold1 documents).
Proof.
  intros H. unfold keptPairs. symmetry. apply filter_filter_implied.
  intros r Hr. exact (leb_trans _ _ _ H Hr).
Qed.

Variable threshold1 threshold2 : float.

Local Abbreviation keep2 := (fun r => threshold2 <=? SearchResult.similarity r).

Lemma keep2_upward (x y : SearchResult.t) :
  keep2 x = true -> geSimilarity y x -> keep2 y = true.
Proof. intros Hx Hyx. exact (leb_trans _ _ _ Hx Hyx). Qed.

Lemma sortInsert_below (x : SearchResult.t) (l : list SearchResult.t) :
  Forall (fun z => geSimilarity x z) l ->
  JSArray.sortInsert compareFn x l = x :: l.
Proof.
  destruct 1 as [| z l Hz _]; cbn [JSArray.sortInsert]; [reflexivity |].
  now rewrite compareFn_positive, (leb_not_ltb _ _ Hz).
Qed.

Lemma sortInsert_filter (x : SearchResult.t) (l : list SearchResult.t) :
  reachesThreshold threshold1 x -> Forall (reachesThreshold threshold1) l ->
  StronglySorted geSimilarity l ->
  filter keep2 (JSArray.sortInsert compareFn x l)
  = if keep2 x then JSArray.sortInsert compareFn x (filter keep2 l)
    else filter keep2 l.
Proof.
  intros Hx Hl Hs. induction Hs as [| y l Hs IH Hy]; cbn [JSArray.sortInsert filter].
  - now destruct (keep2 x).
  - inversion Hl as [| ? ? Hry Hrl]; subst. specialize (IH Hrl).
    rewrite compareFn_positive.
    destruct (SearchResult.similarity x <? SearchResult.similarity y) eqn:E.
    + cbn [filter]. rewrite IH. destruct (keep2 x) eqn:Ex.
      * rewrite (keep2_upward x y Ex (ltb_leb _ _ E)).
        cbn [JSArray.sortInsert]. now rewrite compareFn_positive, E.
      * reflexivity.
    + cbn [filter]. destruct (keep2 x) eqn:Ex; [| reflexivity].
      assert (Hxy : geSimilarity x y)
        by (unfold geSimilarity; now apply (leb_of_not_ltb threshold1)).
      symmetry. apply sortInsert_below.
      change (Forall (fun z => geSimilarity x z) (filter keep2 (y :: l))).
      rewrite Forall_forall. intros z Hz. apply filter_In in Hz as [Hz _].
      destruct Hz as [<- | Hz]; [exact Hxy |].
      rewrite Forall_forall in Hy. exact (geSimilarity_trans _ _ _ Hxy (Hy z Hz)).
Qed.

Lemma sort_filter (l : list SearchResult.t) :
  Forall (reachesThreshold threshold1) l ->
  JSArray.sort compareFn (filter keep2 l) = filter keep2 (JSArray.sort compareFn l).
Proof.
  induction 1 as [| x l Hx Hl IH]; [reflexivity |].
  cbn [JSArray.sort fold_right filter]. fold (JSArray.sort compareFn l).
  rewrite (sortInsert_filter x _ Hx (sort_Forall compareFn _ l Hl)
             (sort_sorted threshold1 l Hl)).
  destruct (keep2 x); [| exact IH].
  cbn [JSArray.sort fold_right]. fold (JSArray.sort compareFn (filter keep2 l)).
  now rewrite IH.
Qed.

Lemma filter_sorted_prefix (l : list SearchResult.t) :
  StronglySorted geSimilarity l ->
  exists k, filter keep2 l = firstn k l /\
            Forall (fun r => keep2 r = false) (skipn k l).
Proof.
  induction 1 as [| x l Hs [k [Hk Hrest]] Hx]; [exists O; split; constructor |].
  cbn [filter]. destruct (keep2 x) eqn:Ex.
  - exists (S k). cbn [firstn skipn]. now rewrite Hk.
  - exists O. cbn [firstn skipn]. split.
    + rewrite Forall_forall in Hx.
      assert (Hnone : Forall (fun r => keep2 r = false) l).
      { rewrite Forall_forall. intros z Hz.
        destruct (keep2 z) eqn:Ez; [| reflexivity].
        rewrite (keep2_upward z x Ez (Hx z Hz)) in Ex. discriminate. }
      clear -Hnone. induction Hnone as [| z l Hz _ IH]; cbn [filter];
        [reflexivity | now rewrite Hz].
    + constructor; [exact Ex |].
      rewrite Forall_forall in *. intros z Hz.
      destruct (keep2 z) eqn:Ez; [| reflexivity].
      rewrite (keep2_upward z x Ez (Hx z Hz)) in Ex. discriminate.
Qed.

End ThresholdFacts.

(** X25: raising the threshold only cuts the ranking shorter.  For
    thresholds [threshold1 <= threshold2], a limit that is not negative
    and matching dimensions, the results for [threshold2] are a prefix of
    the results for [threshold1], and the results that fall away are all
    below [threshold2]. *)
Theorem search_higher_threshold_is_prefix (queryEmbedding : list float)
  (userId : JSString.t) (limit : Z) (threshold1 threshold2 : float)
  (store : Store) :
  (threshold1 <=? threshold2)%float = true ->
  (0 <= limit)%Z ->
  dimensionsMatch queryEmbedding (Document_find userId store) ->
  exists out2 rest,
    searchSimilarDocuments queryEmbedding userId limit threshold2 store
    = Normal out2 /\
    searchSimilarDocuments queryEmbedding userId limit threshold1 store
    = Normal (out2 ++ rest) /\
    Forall (fun r => (threshold2 <=? SearchResult.similarity r)%float = false)
      rest.
Proof.
  intros Hth Hlimit Hdim.
  rewrite !(search_match _ _ limit _ _ Hdim), !slice_from_0.
  rewrite (keptPairs_raise queryEmbedding threshold1 threshold2 _ Hth).
  set (kept1 := keptPairs queryEmbedding threshold1 (Document_find userId store)).
  assert (Hreach : Forall (reachesThreshold threshold1) kept1)
    by apply keptPairs_reach.
  rewrite (sort_filter threshold1 threshold2 kept1 Hreach).
  destruct (filter_sorted_prefix threshold2 _ (sort_sorted threshold1 kept1 Hreach))
    as [k [Hk Hrest]].
  set (sorted1 := JSArray.sort compareFn kept1) in *.
  rewrite Hk.
  set (n2 := Z.to_nat (JSArray.relativeIndex
                         (Z.of_nat (length (firstn k sorted1))) limit)).
  set (n1 := Z.to_nat (JSArray.relativeIndex (Z.of_nat (length sorted1)) limit)).
  assert (Hn : firstn n2 (firstn k sorted1) = firstn (Nat.min n1 k) sorted1).
  { rewrite firstn_firstn. f_equal. subst n1 n2. rewrite length_firstn.
    unfold JSArray.relativeIndex. destruct (Z.ltb_spec limit 0); lia. }
  exists (firstn (Nat.min n1 k) sorted1),
         (firstn (n1 - Nat.min n1 k) (skipn (Nat.min n1 k) sorted1)).
  split; [now rewrite Hn |]. split.
  - f_equal.
    rewrite <- (firstn_skipn (Nat.min n1 k) (firstn n1 sorted1)) at 1.
    rewrite firstn_firstn, skipn_firstn_comm.
    replace (Nat.min (Nat.min n1 k) n1) with (Nat.min n1 k) by lia. reflexivity.
  - destruct (Nat.le_ge_cases n1 k) as [Hle | Hge].
    + rewrite Nat.min_l by exact Hle. rewrite Nat.sub_diag. constructor.
    + rewrite Nat.min_r by exact Hge. now apply Forall_firstn.
Qed.

Lemma search_higher_threshold_is_prefix_witness :
  exists out2 rest,
    searchSimilarDocuments [1; 0]%float Sample.alice 5 1%float Sample.store
    = Normal out2 /\
    searchSimilarDocuments [1; 0]%float Sample.alice 5 0.5%float Sample.store
    = Normal (out2 ++ rest) /\
    Forall (fun r => (1 <=? SearchResult.similarity r)%float = false) rest.
Proof.
  apply search_higher_threshold_is_prefix; [reflexivity | lia |].
  cbn. repeat (constructor; [repeat (constructor; [reflexivity |]); constructor |]).
  constructor.
Defined.

(** X26: a similarity that is NaN is never returned: every result of a
    search has a similarity that is a number, and with a threshold that is
    NaN a search over matching dimensions returns nothing. *)
Theorem search_never_returns_nan (queryEmbedding : list float)
  (userId : JSString.t) (limit : Z) (threshold : float) (store : Store)
  (out : list SearchResult.t) :
  searchSimilarDocuments queryEmbedding userId limit threshold store
  = Normal out ->
  Forall (fun r => (SearchResult.similarity r =? SearchResult.similarity r)%float
                   = true) out /\
  ((threshold =? threshold)%float = false -> out = []).
Proof.
  destruct (dimensions_dec queryEmbedding (Document_find userId store))
    as [Hdim | Hbad].
  - rewrite (search_match _ _ limit threshold _ Hdim). intros [= <-].
    pose proof (keptPairs_reach queryEmbedding threshold
                  (Document_find userId store)) as Hreach.
    split.
    + rewrite slice_from_0. apply Forall_firstn, sort_Forall.
      rewrite Forall_forall in *. intros r Hr.
      exact (leb_is_number _ _ (Hreach r Hr)).
    + intros Hnan.
      destruct (keptPairs queryEmbedding threshold (Document_find userId store))
        as [| r kept]; [now rewrite slice_from_0, firstn_nil |].
      inversion Hreach as [| ? ? Hr _]; subst. unfold reachesThreshold in Hr.
      rewrite (nan_leb _ _ Hnan) in Hr. discriminate.
  - rewrite (search_mismatch _ _ limit threshold _ Hbad). discriminate.
Qed.

Lemma search_never_returns_nan_witness :
  searchSimilarDocuments [1; 0]%float Sample.alice 5 nan Sample.store = Normal [].
Proof.
  assert (H : searchSimilarDocuments [1; 0]%float Sample.alice 5 nan Sample.store
              = Normal (JSArray.slice
                          (JSArray.sort compareFn
                             (keptPairs [1; 0]%float nan
                                (Document_find Sample.alice Sample.store))) 0 5))
    by reflexivity.
  destruct (search_never_returns_nan [1; 0]%float Sample.alice 5 nan Sample.store
              _ H) as [_ Hnan].
  rewrite H, (Hnan eq_refl). reflexivity.
Defined.

(* ----------------------------------------------------------------- *)
(** ** Listing a user's documents *)

Section ListingFacts.

Variable createdAtOf : IDocument.t -> Z.
Variable sortNewestFirst : list IDocument.t -> list IDocument.t.

Hypothesis sort_permutes : forall l, Permutation (sortNewestFirst l) l.
Hypothesis sort_orders :
  forall l, StronglySorted (fun a b => (createdAtOf b <= createdAtOf a)%Z)
              (sortNewestFirst l).

(** X27: the listing of a user's documents is scoped and ordered.  Given a
    database sort that returns its input reordered, newest first,
    [getUserDocuments] returns one summary for each document that the user
    owns and none for any other document, newest first, each with the id,
    the file name and the counts of its document's metadata. *)
Theorem getUserDocuments_lists_own_documents (userId : JSString.t)
  (store : Store) :
  Permutation
    (UserDocuments.getUserDocuments createdAtOf sortNewestFirst userId store)
    (map (UserDocuments.summary createdAtOf) (Document_find userId store)) /\
  StronglySorted
    (fun a b => (UserDocuments.createdAt b <= UserDocuments.createdAt a)%Z)
    (UserDocuments.getUserDocuments createdAtOf sortNewestFirst userId store) /\
  Forall (fun s =>
            exists d, In d store /\ IDocument.userId d = userId /\
                      UserDocuments.documentId s = IDocument._id d /\
                      UserDocuments.fileName s = IDocument.fileName d /\
                      UserDocuments.chunkCount s
                      = Metadata.chunkCount (IDocument.metadata d) /\
                      UserDocuments.embeddingCount s
                      = Metadata.embeddingCount (IDocument.metadata d))
    (UserDocuments.getUserDocuments createdAtOf sortNewestFirst userId store) /\
  length (UserDocuments.getUserDocuments createdAtOf sortNewestFirst userId store)
  = length (Document_find userId store).
Proof.
  unfold UserDocuments.getUserDocuments.
  split; [apply Permutation_map, sort_permutes |]. split.
  { generalize (sort_orders (Document_find userId store)).
    generalize (sortNewestFirst (Document_find userId store)) as l.
    induction 1 as [| d l Hs IH Hd]; cbn [map]; constructor; [exact IH |].
    rewrite Forall_forall in *. intros s Hs'.
    apply in_map_iff in Hs' as [d' [<- Hd']]. now apply Hd. }
  split.
  { rewrite Forall_forall. intros s Hs.
    apply in_map_iff in Hs as [d [<- Hd]].
    apply (Permutation_in _ (sort_permutes _)) in Hd.
    apply Document_find_In in Hd as [Hin Hu].
    exists d. now repeat split. }
  rewrite length_map. apply Permutation_length, sort_permutes.
Qed.

End ListingFacts.

Lemma insertDescending_perm {A : Type} (key : A -> Z) (x : A) (l : list A) :
  Permutation (UserDocuments.insertDescending key x l) (x :: l).
Proof.
  induction l as [| y l IH]; cbn [UserDocuments.insertDescending]; [reflexivity |].
  destruct (key y <? key x)%Z; [reflexivity |]. rewrite IH. apply perm_swap.
Qed.

Lemma sortDescending_perm {A : Type} (key : A -> Z) (l : list A) :
  Permutation (UserDocuments.sortDescending key l) l.
Proof.
  induction l as [| x l IH]; cbn [UserDocuments.sortDescending fold_right];
    [reflexivity |].
  fold (UserDocuments.sortDescending key l).
  rewrite insertDescending_perm. now constructor.
Qed.

Lemma sortDescending_sorted {A : Type} (key : A -> Z) (l : list A) :
  StronglySorted (fun a b => (key b <= key a)%Z) (UserDocuments.sortDescending key l).
Proof.
  induction l as [| x l IH]; cbn [UserDocuments.sortDescending fold_right];
    [constructor |].
  fold (UserDocuments.sortDescending key l).
  induction IH as [| y m Hs IHm Hy]; cbn [UserDocuments.insertDescending].
  - repeat constructor.
  - destruct (Z.ltb_spec (key y) (key x)) as [Hlt | Hge].
    + constructor; [now constructor |]. constructor; [lia |].
      rewrite Forall_forall in *. intros z Hz. specialize (Hy z Hz). cbn beta in Hy. lia.
    + constructor; [exact IHm |].
      rewrite Forall_forall in *. intros z Hz.
      apply (Permutation_in _ (insertDescending_perm key x m)) in Hz.
      destruct Hz as [<- | Hz]; [lia | now apply Hy].
Qed.

Lemma getUserDocuments_lists_own_documents_witness :
  length (UserDocuments.getUserDocuments
            (fun d => Metadata.processingTime (IDocument.metadata d))
            (UserDocuments.sortDescending
               (fun d => Metadata.processingTime (IDocument.metadata d)))
            Sample.alice Sample.store)
  = 2.
Proof.
  apply (getUserDocuments_lists_own_documents
           (fun d => Metadata.processingTime (IDocument.metadata d))
           (UserDocuments.sortDescending
              (fun d => Metadata.processingTime (IDocument.metadata d)))
           (sortDescending_perm _) (sortDescending_sorted _)
           Sample.alice Sample.store).
Defined.
